(** * Memex: the local storage layer, the page import routine and the
    tag dropdown, embedded from the TypeScript sources.

  - [Storage]       src/search/search-index-new/storage/index.ts
  - [ImportPage]    src/search/search-index-new/import.ts
  - [IndexDropdown] the IndexDropdownContainer React component

  JavaScript objects used as dictionaries are finite maps from property
  names to values; calls into modules that are not part of these files
  (Dexie, [addPage], [addTag], the RPC stubs) are recorded as events. *)

From Stdlib Require Import ZArith Lia Ascii.
From stdpp Require Import gmap strings list fin_maps.

Local Open Scope string_scope.
Local Open Scope Z_scope.
Local Open Scope list_scope.

(** ** A small JavaScript prelude *)
Module Js.

(** Primitive values.  Numbers that occur in these sources (schema
    versions, timestamps, indexes) are integers, kept as [Z]. *)
Inductive JsVal : Type :=
| JUndefined
| JNull
| JBool (b : bool)
| JNumber (n : Z)
| JString (s : string).

#[global] Instance JsVal_eq_dec : EqDecision JsVal.
Proof. solve_decision. Defined.

(** A plain object: own enumerable properties. *)
Abbreviation JsObject := (gmap string JsVal).

(** [o.k]: reading a property that is absent yields [undefined]. *)
Definition prop (o : JsObject) (k : string) : JsVal :=
  default JUndefined (o !! k).

(** [Object.keys(o).length] *)
Definition keys_length (o : JsObject) : Z := Z.of_nat (size o).

(** [Object.assign(target, source)]: every property of [source] is
    written over [target]'s; the result is the (mutated) target. *)
Definition Object_assign {V} (target source : gmap string V) : gmap string V :=
  source ∪ target.

(** [arr[i]] for a number [i]: [undefined] (here [None]) out of range. *)
Definition index {A} (arr : list A) (i : Z) : option A :=
  if decide (0 ≤ i) then arr !! Z.to_nat i else None.

(** [arr.findIndex(p)]: first position satisfying [p], or [-1]. *)
Fixpoint findIndex {A} (p : A → bool) (arr : list A) : Z :=
  match arr with
  | [] => -1
  | x :: rest =>
      if p x then 0
      else let r := findIndex p rest in
           if decide (r = -1) then -1 else 1 + r
  end.

(** Relative index of [Array.prototype.slice]: negative counts from the
    end, everything is clamped to [0 .. length]. *)
Definition clamp (len k : Z) : nat :=
  Z.to_nat (if decide (k < 0) then Z.max (len + k) 0 else Z.min k len).

(** [arr.slice(start, end)] *)
Definition slice {A} (arr : list A) (start stop : Z) : list A :=
  let len := Z.of_nat (length arr) in
  let s := clamp len start in
  let e := clamp len stop in
  take (e - s)%nat (drop s arr).

(** [arr.slice(start)] *)
Definition slice_from {A} (arr : list A) (start : Z) : list A :=
  drop (clamp (Z.of_nat (length arr)) start) arr.

(** A thrown exception; the only one these sources can raise by
    themselves is the [TypeError] of reading a property of [undefined]. *)
Inductive Failure : Type := TypeError.

(** An effectful computation: the calls it made to the outside, oldest
    first, and how it ended. *)
Record Exec (E A : Type) : Type := MkExec {
  trace : list E;
  outcome : Failure + A;
}.
Arguments MkExec {E A} _ _.
Arguments trace {E A} _.
Arguments outcome {E A} _.

Definition ret {E A} (a : A) : Exec E A := MkExec [] (inr a).

Definition throw {E A} (f : Failure) : Exec E A := MkExec [] (inl f).

Definition call {E} (e : E) : Exec E unit := MkExec [e] (inr tt).

Definition bind {E A B} (m : Exec E A) (k : A → Exec E B) : Exec E B :=
  match outcome m with
  | inl f => MkExec (trace m) (inl f)
  | inr a => MkExec (trace m ++ trace (k a)) (outcome (k a))
  end.

#[global] Instance Exec_ret {E} : MRet (Exec E) := λ A, ret.
#[global] Instance Exec_bind {E} : MBind (Exec E) := λ A B k m, bind m k.

(** [x.p] where [x] may be [undefined]. *)
Definition deref {E A} (x : option A) : Exec E A :=
  match x with
  | Some a => ret a
  | None => throw TypeError
  end.

(** [arr.forEach(f)], and [Promise.all(arr.map(f))] for an [f] whose
    promise resolves: [f] runs on every element, first to last. *)
Fixpoint forEach {E A} (f : A → Exec E unit) (arr : list A) : Exec E unit :=
  match arr with
  | [] => ret tt
  | x :: rest => f x ;; forEach f rest
  end.

(** *** Strings

    In the functions below a [string] stands for a JavaScript string whose
    code units are all below 256, one [ascii] per code unit. *)

(** [\s] of a regular expression and the characters [trim] strips: the
    WhiteSpace and LineTerminator code points below U+0100, which are tab,
    line feed, vertical tab, form feed, carriage return, space and
    no-break space. *)
Definition isSpace (c : ascii) : bool :=
  let n := N_of_ascii c in
  ((9 <=? n) && (n <=? 13) || (n =? 32) || (n =? 160))%N.

(** [\w]: letters A-Z and a-z, digits and the underscore. *)
Definition isWord (c : ascii) : bool :=
  let n := N_of_ascii c in
  ((48 <=? n) && (n <=? 57) || (65 <=? n) && (n <=? 90) || (n =? 95)
   || (97 <=? n) && (n <=? 122))%N.

(** Lower-case mapping of one code unit below U+0100: A-Z, and the
    capital letters U+00C0-U+00DE except the multiplication sign U+00D7. *)
Definition toLowerChar (c : ascii) : ascii :=
  let n := N_of_ascii c in
  if ((65 <=? n) && (n <=? 90)
      || (192 <=? n) && (n <=? 222) && negb (n =? 215))%N
  then ascii_of_N (n + 32)
  else c.

(** [s.toLowerCase()] *)
Fixpoint toLowerCase (s : string) : string :=
  match s with
  | EmptyString => EmptyString
  | String c rest => String (toLowerChar c) (toLowerCase rest)
  end.

Fixpoint js_trimStart (s : string) : string :=
  match s with
  | String c rest => if isSpace c then js_trimStart rest else s
  | EmptyString => EmptyString
  end.

Fixpoint js_trimEnd (s : string) : string :=
  match s with
  | String c rest =>
      match js_trimEnd rest with
      | EmptyString => if isSpace c then EmptyString else String c EmptyString
      | kept => String c kept
      end
  | EmptyString => EmptyString
  end.

(** [s.trim()] *)
Definition js_trim (s : string) : string := js_trimEnd (js_trimStart s).

(** [s.replace(/\s\s+/g, ' ')]: every maximal run of two or more white
    space characters becomes one space; [inRun] tells that the characters
    just before belong to a run that has been replaced already. *)
Fixpoint replaceSpaceRunsFrom (inRun : bool) (s : string) : string :=
  match s with
  | EmptyString => EmptyString
  | String c rest =>
      if isSpace c then
        if inRun then replaceSpaceRunsFrom true rest
        else match rest with
             | String d _ =>
                 if isSpace d
                 then String " "%char (replaceSpaceRunsFrom true rest)
                 else String c (replaceSpaceRunsFrom false rest)
             | EmptyString => String c EmptyString
             end
      else String c (replaceSpaceRunsFrom false rest)
  end.

Definition replaceSpaceRuns (s : string) : string :=
  replaceSpaceRunsFrom false s.

(** [re.test(s)] for a regular expression that is one character class:
    some character of [s] is in the class. *)
Fixpoint testClass (class : ascii → bool) (s : string) : bool :=
  match s with
  | EmptyString => false
  | String c rest => class c || testClass class rest
  end.

(** Running a computation whose events are a part of a larger event type. *)
Definition liftExec {E E' A} (inj : E → E') (m : Exec E A) : Exec E' A :=
  MkExec (inj <$> trace m) (outcome m).

End Js.

(** ** storage/index.ts *)
Module Storage.
Import Js.

(** A Dexie stores specification: table name to index syntax. *)
Abbreviation Schema := (gmap string string).

(** Stored data: each table holds its records. *)
Abbreviation Database := (gmap string (list JsObject)).

(** What one [this.version(n).stores(s).upgrade(f)] chain hands to Dexie.
    Dexie parses the stores object during the [stores] call, so
    [reg_stores] is the content of the object at that moment. *)
Record Registration : Type := {
  reg_version : Z;
  reg_stores : Schema;
  reg_upgrade : option (Database → Database);
}.

(** State threaded through [_initSchema]: the local [baseSchema] object,
    which [Object.assign] mutates in place, and the versions registered so
    far, oldest call first. *)
Record InitState : Type := {
  baseSchema_obj : Schema;
  registered : list Registration;
}.

Definition baseVersion : Z := 1.

Definition baseSchema : Schema :=
  list_to_map
    [ ("pages", "url, *terms, *titleTerms, *urlTerms, domain, hostname");
      ("visits", "[time+url], url");
      ("bookmarks", "url, time");
      ("tags", "[name+url], name, url");
      ("favIcons", "hostname") ].

Section WithMigration.
(** The type of a migration runner is declared in [./types], which is not
    part of these files; the code only iterates over the runners. *)
Context {Migration : Type}.

(** One entry of the Dexie history, as destructured by [_initSchema]:
    [{ version, schema, migrations }]. *)
Record DexieSchema : Type := {
  version : Z;
  schema : Schema;
  migrations : list Migration;
}.

(** The callback given to [upgrade]: [migrations.forEach] with a body that
    holds only a TODO comment. *)
Definition upgradeCallback (migrations : list Migration) (db : Database)
  : Database :=
  foldl (λ db' _migration, db') db migrations.

(** Body of [dexieHistory.forEach(({ version, schema, migrations }) => ...)]. *)
Definition registerEntry (st : InitState) (entry : DexieSchema) : InitState :=
  let finalVersion := baseVersion + version entry in
  let finalSchema := Object_assign (baseSchema_obj st) (schema entry) in
  {| baseSchema_obj := finalSchema;
     registered :=
       registered st ++
       [ {| reg_version := finalVersion;
            reg_stores := finalSchema;
            reg_upgrade := Some (upgradeCallback (migrations entry)) |} ] |}.

(** [dexieHistory] is [undefined] when the constructor got no storage
    manager; [dexieHistory || []] then makes it empty. *)
Definition _initSchema (dexieHistory : option (list DexieSchema)) : InitState :=
  let dexieHistory := default [] dexieHistory in
  let st :=
    {| baseSchema_obj := baseSchema;
       registered :=
         [ {| reg_version := baseVersion;
              reg_stores := baseSchema;
              reg_upgrade := None |} ] |} in
  foldl registerEntry st dexieHistory.

End WithMigration.
Arguments DexieSchema : clear implicits.

(** Dexie running the upgrade of one registered version on the stored
    data; the base version has none. *)
Definition runUpgrade (r : Registration) (db : Database) : Database :=
  match reg_upgrade r with
  | Some upgrade => upgrade db
  | None => db
  end.

(** [this.tables]: every table of the database. *)
Definition tables (db : Database) : list string := (map_to_list db).*1.

(** [table.clear()] *)
Definition clear (table : string) (db : Database) : Database :=
  alter (λ _, []) table db.

(** [for (const table of this.tables) { await table.clear() }] *)
Definition clearData (db : Database) : Database :=
  foldl (λ db' table, clear table db') db (tables db).

(** *** Reading a stores specification

    The syntax is Dexie's, documented at the page the source links to: a
    comma-separated list of indexes of which the first is the primary key;
    [[a+b]] is a compound key over [a] and [b]; [&], [*] and [++] are
    markers in front of a name. *)

Fixpoint splitOn (sep : ascii) (s : string) : list string :=
  match s with
  | EmptyString => [EmptyString]
  | String c rest =>
      if decide (c = sep) then EmptyString :: splitOn sep rest
      else match splitOn sep rest with
           | [] => [String c EmptyString]
           | w :: ws => String c w :: ws
           end
  end.

Fixpoint trimStart (s : string) : string :=
  match s with
  | String c rest => if decide (c = " "%char) then trimStart rest else s
  | EmptyString => EmptyString
  end.

Definition trim (s : string) : string :=
  String.rev (trimStart (String.rev (trimStart s))).

Fixpoint dropMarkers (s : string) : string :=
  match s with
  | String c rest =>
      if decide (c = "&"%char ∨ c = "*"%char) then dropMarkers rest
      else if decide (c = "+"%char) then
        match rest with
        | String "+"%char rest' => dropMarkers rest'
        | _ => String c (dropMarkers rest)
        end
      else String c (dropMarkers rest)
  | EmptyString => EmptyString
  end.

(** Names of the indexes of one table, primary key first. *)
Definition indexNames (spec : string) : list string :=
  (λ idx, dropMarkers (trim idx)) <$> splitOn ","%char spec.

(** Key path of an index name: the parts of a compound key, else the name. *)
Definition keyPath (name : string) : list string :=
  match name with
  | String "["%char inner =>
      match String.rev inner with
      | String "]"%char rinner => splitOn "+"%char (String.rev rinner)
      | _ => [name]
      end
  | _ => [name]
  end.

(** Key path of the primary key of [table] in a stores specification. *)
Definition primaryKey (s : Schema) (table : string) : option (list string) :=
  spec ← s !! table;
  keyPath <$> head (indexNames spec).

(** *** Specification-side notions *)

(** The index syntax of [table] in the last of [changes] that mentions it. *)
Fixpoint latestChange (changes : list Schema) (table : string) : option string :=
  match changes with
  | [] => None
  | c :: rest =>
      match latestChange rest table with
      | Some spec => Some spec
      | None => c !! table
      end
  end.

(** The base schema merged with a sequence of schema changes: a table has
    the indexes of the last change that mentions it, the base's otherwise. *)
Definition merged (base : Schema) (changes : list Schema) (table : string)
  : option string :=
  match latestChange changes table with
  | Some spec => Some spec
  | None => base !! table
  end.

(** A strictly increasing sequence of integers. *)
Fixpoint increasing (l : list Z) : bool :=
  match l with
  | [] => true
  | x :: rest =>
      match rest with
      | [] => true
      | y :: _ => bool_decide (x < y) && increasing rest
      end
  end.

(** *** The constructor *)

(** [Storage.DEF_PARAMS.dbName] *)
Definition DEF_dbName : string := "memex".

(** [dbName || Storage.DEF_PARAMS.dbName]: an absent name and the empty
    string are both falsy. *)
Definition databaseName (dbName : option string) : string :=
  match dbName with
  | Some name => if decide (name = "") then DEF_dbName else name
  | None => DEF_dbName
  end.

Section Constructor.
(** [StorageManager] and [getDexieHistory] live in [./manager] and
    [./dexie-schema], which are not part of these files. *)
Context {Migration Registry : Type}.
Variable getDexieHistory : Registry → list (DexieSchema Migration).

(** The fields of [Props] the constructor uses besides the IndexedDB
    handles; [storageManager] is reduced to its [registry]. *)
Record Props : Type := {
  dbName : option string;
  storageManager : option Registry;
}.

(** What the constructor sets up: the name given to Dexie and the outcome
    of [this._initSchema(storageManager && getDexieHistory(storageManager.registry))]. *)
Definition construct (props : Props) : string * InitState :=
  (databaseName (dbName props),
   _initSchema (getDexieHistory <$> storageManager props)).

End Constructor.
Arguments Props : clear implicits.

(** *** Numbers

    The source adds [baseVersion + version] on JavaScript numbers, which
    are binary64 values; [registerEntry] adds the integers they hold.  The
    two agree on safe integers, for which the notions below say what the
    JavaScript addition gives. *)

(** [Number.isSafeInteger(v)] for a number holding the integer [v]. *)
Definition isSafeInteger (v : Z) : bool := Z.abs v <? 2 ^ 53.

(** The binary64 value nearest to an integer, ties to even; the overflow
    to [Infinity] from 2^1024 on is left out. *)
Definition toBinary64 (x : Z) : Z :=
  let a := Z.abs x in
  if a <=? 2 ^ 53 then x
  else
    let e := Z.log2 a - 52 in
    let q := a / 2 ^ e in
    let r := a mod 2 ^ e in
    let q' := if (2 ^ e <? 2 * r) || ((2 * r =? 2 ^ e) && Z.odd q)
              then q + 1 else q in
    Z.sgn x * (q' * 2 ^ e).

(** [a + b] on two numbers that hold integers. *)
Definition jsAdd (a b : Z) : Z := toBinary64 (a + b).

End Storage.

(** ** import.ts *)
Module ImportPage.
Import Js.

(** The argument of [importPage], a [Partial<ExportedPage>].  The type is
    declared in [../migration], which is not part of these files; the
    fields are the ones [importPage] reads.  A scalar field that is absent
    reads as [JUndefined]; an absent array is [None]. *)
Module ExportedPage.
Record t : Type := {
  url : JsVal;
  fullUrl : JsVal;
  text : JsVal;
  fullTitle : JsVal;
  screenshotURI : JsVal;
  favIconURI : JsVal;
  bookmark : JsVal;
  visits : option (list JsObject);
  tags : option (list JsVal);
}.
End ExportedPage.

(** The object literal passed to [addPage]. *)
Module AddPageArgs.
Record Content : Type := {
  fullText : JsVal;
  title : JsVal;
}.
Record PageDoc : Type := {
  content : Content;
  url : JsVal;
  screenshotURI : JsVal;
  favIconURI : JsVal;
}.
Record t : Type := {
  pageDoc : PageDoc;
  bookmark : JsVal;
  visits : list JsVal;
}.
End AddPageArgs.

(** Calls into [./index]; each is taken to resolve. *)
Inductive Call : Type :=
| addPage (args : AddPageArgs.t)
| addTag (url tag : JsVal)
| updateTimestampMeta (url timestamp : JsVal) (meta : JsObject).

(** The arrow function mapped over [page.visits] in the last statement:
    [({ timestamp, ...visit }) => Object.keys(visit).length > 0 ? ... : ...]. *)
Definition updateVisit (url : JsVal) (v : JsObject) : Exec Call unit :=
  let timestamp := prop v "timestamp" in
  let visit := delete "timestamp" v in
  if bool_decide (0 < keys_length visit)
  then call (updateTimestampMeta url timestamp visit)
  else ret tt.

Definition importPage (page : ExportedPage.t) : Exec Call unit :=
  (* the argument object is built before [addPage] is entered *)
  visits ← deref (ExportedPage.visits page);
  call (addPage
    {| AddPageArgs.pageDoc :=
         {| AddPageArgs.content :=
              {| AddPageArgs.fullText := ExportedPage.text page;
                 AddPageArgs.title := ExportedPage.fullTitle page |};
            AddPageArgs.url := ExportedPage.fullUrl page;
            AddPageArgs.screenshotURI := ExportedPage.screenshotURI page;
            AddPageArgs.favIconURI := ExportedPage.favIconURI page |};
       AddPageArgs.bookmark := ExportedPage.bookmark page;
       AddPageArgs.visits := (λ visit, prop visit "timestamp") <$> visits |});;
  (* Add in all tags *)
  tags ← deref (ExportedPage.tags page);
  forEach (λ tag, call (addTag (ExportedPage.url page) tag)) tags;;
  (* Update all the visits with metadata *)
  visits ← deref (ExportedPage.visits page);
  forEach (updateVisit (ExportedPage.url page)) visits.

(** Specification side: a visit carries a field other than [timestamp]. *)
Definition hasMeta (v : JsObject) : Prop :=
  ∃ k, k ≠ "timestamp" ∧ is_Some (v !! k).

End ImportPage.

(** ** IndexDropdownContainer *)
Module IndexDropdown.
Import Js.

Inductive Source : Type := tag | domain.

(** The props the handlers read; the callbacks [onFilterAdd] and
    [onFilterDel] appear as events. *)
Record Props : Type := {
  source : Source;
  url : option string;
  tabId : option Z;
  initFilters : list string;
}.

Record State : Type := {
  searchVal : string;
  isLoading : bool;
  displayFilters : list string;
  filters : list string;
  focused : Z;
}.

(** An element of [getDisplayTags()]. *)
Module DisplayTag.
Record t : Type := {
  value : string;
  active : bool;
  focused : bool;
}.
End DisplayTag.

Inductive Event : Type :=
| addTagRPC (url : string) (tag : string) (tabId : option Z)
| delTagRPC (url : string) (tag : string) (tabId : option Z)
| onFilterAdd (filter : string)
| onFilterDel (filter : string)
| updateLastActive.

(** [this.props.url != null] *)
Definition allowIndexUpdate (props : Props) : bool :=
  bool_decide (url props ≠ None).

Definition pageHasTag (st : State) (value : string) : bool :=
  bool_decide (value ∈ filters st).

Definition getDisplayTags (st : State) : list DisplayTag.t :=
  imap (λ i value,
          {| DisplayTag.value := value;
             DisplayTag.active := pageHasTag st value;
             DisplayTag.focused := bool_decide (focused st = Z.of_nat i) |})
       (displayFilters st).

(** An RPC that is sent only when the index may be updated. *)
Definition whenAllowed (props : Props) (rpc : string → Event) : Exec Event unit :=
  match url props with
  | Some u => call (rpc u)
  | None => ret tt
  end.

Definition handleTagSelection (props : Props) (index : Z) (st : State)
  : Exec Event State :=
  entry ← deref (Js.index (getDisplayTags st) index);
  let tag := DisplayTag.value entry in
  let tagIndex := findIndex (λ val, bool_decide (val = tag)) (filters st) in
  tagsReducer ←
    (if decide (tagIndex = -1) then
       whenAllowed props (λ u, addTagRPC u tag (tabId props));;
       call (onFilterAdd tag);;
       mret (λ tags : list string, tag :: tags)
     else
       whenAllowed props (λ u, delTagRPC u tag (tabId props));;
       call (onFilterDel tag);;
       mret (λ tags : list string,
               (slice tags 0 tagIndex ++ slice_from tags (tagIndex + 1))%list));
  let st' :=
    {| searchVal := searchVal st;
       isLoading := isLoading st;
       displayFilters := displayFilters st;
       filters := tagsReducer (filters st);
       focused := index |} in
  call updateLastActive;;
  mret st'.

(** *** The other members of the component *)

(** The state set up by the constructor. *)
Definition initialState (props : Props) : State :=
  {| searchVal := "";
     isLoading := false;
     displayFilters := initFilters props;
     filters := initFilters props;
     focused := if decide (length (initFilters props) = 0%nat) then -1 else 0 |}.

(** [inputBlockPattern.test(s)]: the pattern is [/[^\w\s-.]/gi] for a
    domain input and [/[^\w\s-]/gi] for a tag input, a fresh object at
    every use. *)
Definition inputBlocked (src : Source) (s : string) : bool :=
  testClass
    (λ c, negb (isWord c || isSpace c || bool_decide (c = "-"%char)
                || match src with
                   | domain => bool_decide (c = "."%char)
                   | tag => false
                   end))
    s.

Definition getSearchVal (st : State) : string :=
  toLowerCase (replaceSpaceRuns (js_trim (searchVal st))).

Definition canCreateTag (props : Props) (st : State) : bool :=
  if negb (allowIndexUpdate props) then false
  else
    let searchVal := getSearchVal st in
    negb (bool_decide (String.length searchVal = 0%nat))
    && negb (foldl (λ acc tag, acc || bool_decide (tag = searchVal)) false
                   (displayFilters st)).

(** Events of the whole component: those of [handleTagSelection], and
    [this.inputEl.focus()], [event.preventDefault()], the suggestion RPC,
    [console.error] and the debounced [fetchTagSuggestions] that
    [setState] is asked to run. *)
Inductive UiEvent : Type :=
| tagEvent (e : Event)
| inputFocus
| preventDefault
| suggestRPC (searchVal : string) (src : Source)
| consoleError
| fetchTagSuggestionsDebounced.

(** Used for 'Enter' presses or 'Add new tag' clicks. *)
Definition addTag (props : Props) (st : State) : Exec UiEvent State :=
  let newTag := getSearchVal st in
  let newTags := newTag :: filters st in
  liftExec tagEvent (whenAllowed props (λ u, addTagRPC u newTag (tabId props)));;
  call inputFocus;;
  let st' :=
    {| searchVal := "";
       isLoading := isLoading st;
       displayFilters := newTags;
       filters := newTags;
       focused := 0 |} in
  call (tagEvent (onFilterAdd newTag));;
  call (tagEvent updateLastActive);;
  mret st'.

(** The result [null] is the state left as it is. *)
Definition handleSearchEnterPress (props : Props) (st : State)
  : Exec UiEvent State :=
  call preventDefault;;
  if canCreateTag props st
     && bool_decide (focused st = Z.of_nat (length (displayFilters st)))
  then addTag props st
  else if negb (bool_decide (length (displayFilters st) = 0%nat))
  then liftExec tagEvent (handleTagSelection props (focused st) st)
  else mret st.

(** The local [offset] of [handleSearchArrowPress]. *)
Definition arrowOffset (props : Props) (st : State) : Z :=
  (* One extra index if the "add new tag" thing is showing *)
  let offset := if canCreateTag props st then 0 else 1 in
  if negb (allowIndexUpdate props) then 1 else offset.

(** [key] is [event.key], which here is "ArrowUp" or "ArrowDown". *)
Definition handleSearchArrowPress (props : Props) (key : string) (st : State)
  : Exec UiEvent State :=
  call preventDefault;;
  let offset := arrowOffset props st in
  let len := Z.of_nat (length (displayFilters st)) in
  let focusedReducer :=
    if decide (key = "ArrowUp")
    then λ focused, if decide (focused < 1) then len - offset else focused - 1
    else λ focused, if decide (focused = len - offset) then 0 else focused + 1 in
  mret {| searchVal := searchVal st;
          isLoading := isLoading st;
          displayFilters := displayFilters st;
          filters := filters st;
          focused := focusedReducer (focused st) |}.

Definition handleSearchKeyDown (props : Props) (key : string) (st : State)
  : Exec UiEvent State :=
  if decide (key = "Enter") then handleSearchEnterPress props st
  else if decide (key = "ArrowUp" ∨ key = "ArrowDown")
  then handleSearchArrowPress props key st
  else mret st.

(** [value] is [event.currentTarget.value]. *)
Definition handleSearchChange (props : Props) (value : string) (st : State)
  : Exec UiEvent State :=
  (* Block input of non-words, spaces and hypens for tags *)
  if inputBlocked (source props) value then mret st
  else
    (* If user backspaces to clear input, show the current assoc tags again *)
    let displayFilters' :=
      if bool_decide (String.length value = 0%nat)
      then filters st else displayFilters st in
    let st' :=
      {| searchVal := value;
         isLoading := isLoading st;
         displayFilters := displayFilters';
         filters := filters st;
         focused := focused st |} in
    call fetchTagSuggestionsDebounced;;
    mret st'.

(** [reply] is how [suggestRPC] ends if it is called: the suggestions, or
    [None] for a rejected promise. *)
Definition fetchTagSuggestions (props : Props) (reply : option (list string))
    (st : State) : Exec UiEvent State :=
  let searchVal := getSearchVal st in
  if bool_decide (String.length searchVal = 0%nat) then mret st
  else
    let suggestions := filters st in
    call (suggestRPC searchVal (source props));;
    suggestions ←
      match reply with
      | Some received => mret received
      | None => call consoleError;; mret suggestions
      end;
    mret {| searchVal := IndexDropdown.searchVal st;
            isLoading := isLoading st;
            displayFilters := suggestions;
            filters := filters st;
            focused := 0 |}.

(** The rows built by [renderTags]: one per displayed tag, with its key,
    and the "add new tag" row. *)
Inductive Row : Type :=
| IndexDropdownRow (entry : DisplayTag.t) (key : nat)
| IndexDropdownNewRow (value : string) (isFocused : bool).

Definition renderTags (props : Props) (st : State) : list Row :=
  let tags := getDisplayTags st in
  let tagOptions := imap (λ i entry, IndexDropdownRow entry i) tags in
  if canCreateTag props st
  then tagOptions
       ++ [ IndexDropdownNewRow
              (searchVal st)
              (bool_decide (focused st = Z.of_nat (length (displayFilters st)))) ]
  else tagOptions.

(** Whether a row is drawn as focused. *)
Definition rowFocused (row : Row) : bool :=
  match row with
  | IndexDropdownRow entry _ => DisplayTag.focused entry
  | IndexDropdownNewRow _ isFocused => isFocused
  end.

(** The state after an arrow key, and after the same key [n] times. *)
Definition pressArrow (props : Props) (key : string) (st : State) : State :=
  match outcome (handleSearchArrowPress props key st) with
  | inr st' => st'
  | inl _ => st
  end.

Definition pressArrows (props : Props) (key : string) (n : nat) (st : State)
  : State :=
  Nat.iter n (pressArrow props key) st.

(** *** Shapes of strings, for stating what [getSearchVal] returns *)




End IndexDropdown.

(** ** Sample inputs *)
Module Examples.
Import Js Storage.

Definition entry1 : DexieSchema string :=
  {| version := 1;
     schema := {[ "pages" := "url, *terms, *titleTerms, *urlTerms, domain, hostname, fullTitle" ]};
     migrations := ["add-full-title"] |}.

Definition entry2 : DexieSchema string :=
  {| version := 2;
     schema := {[ "annotations" := "id, url" ]};
     migrations := [] |}.

Definition history0 : list (DexieSchema string) := [entry1; entry2].

(** A history whose only entry carries version 0. *)
Definition history_from_zero : list (DexieSchema string) :=
  [ {| version := 0; schema := ∅; migrations := [] |} ].


(** A visit that is only a timestamp, and one that has a duration too. *)
Definition visit_a : JsObject := {[ "timestamp" := JNumber 1500000000001 ]}.

Definition visit_b : JsObject :=
  <[ "duration" := JNumber 30 ]> {[ "timestamp" := JNumber 1500000000002 ]}.

Definition visits0 : list JsObject := [visit_a; visit_b].

Definition tags0 : list JsVal := [JString "news"; JString "later"].

Definition page0 : ImportPage.ExportedPage.t :=
  {| ImportPage.ExportedPage.url := JString "example.com/a";
     ImportPage.ExportedPage.fullUrl := JString "https://example.com/a";
     ImportPage.ExportedPage.text := JString "some text";
     ImportPage.ExportedPage.fullTitle := JString "A page";
     ImportPage.ExportedPage.screenshotURI := JUndefined;
     ImportPage.ExportedPage.favIconURI := JString "data:,";
     ImportPage.ExportedPage.bookmark := JNumber 1500000000000;
     ImportPage.ExportedPage.visits := Some visits0;
     ImportPage.ExportedPage.tags := Some tags0 |}.

(** The same record without its [visits]. *)
Definition page_without_visits : ImportPage.ExportedPage.t :=
  {| ImportPage.ExportedPage.url := JString "example.com/a";
     ImportPage.ExportedPage.fullUrl := JString "https://example.com/a";
     ImportPage.ExportedPage.text := JString "some text";
     ImportPage.ExportedPage.fullTitle := JString "A page";
     ImportPage.ExportedPage.screenshotURI := JUndefined;
     ImportPage.ExportedPage.favIconURI := JUndefined;
     ImportPage.ExportedPage.bookmark := JUndefined;
     ImportPage.ExportedPage.visits := None;
     ImportPage.ExportedPage.tags := Some [JString "news"] |}.

Definition props0 : IndexDropdown.Props :=
  {| IndexDropdown.source := IndexDropdown.tag;
     IndexDropdown.url := Some "example.com/a";
     IndexDropdown.tabId := Some 7;
     IndexDropdown.initFilters := ["news"] |}.

Definition state0 : IndexDropdown.State :=
  {| IndexDropdown.searchVal := "";
     IndexDropdown.isLoading := false;
     IndexDropdown.displayFilters := ["later"; "news"; "work"];
     IndexDropdown.filters := ["news"];
     IndexDropdown.focused := 0 |}.

(** A record with [visits] but without [tags]. *)
Definition page_without_tags : ImportPage.ExportedPage.t :=
  {| ImportPage.ExportedPage.url := JString "example.com/a";
     ImportPage.ExportedPage.fullUrl := JString "https://example.com/a";
     ImportPage.ExportedPage.text := JString "some text";
     ImportPage.ExportedPage.fullTitle := JUndefined;
     ImportPage.ExportedPage.screenshotURI := JUndefined;
     ImportPage.ExportedPage.favIconURI := JUndefined;
     ImportPage.ExportedPage.bookmark := JUndefined;
     ImportPage.ExportedPage.visits := Some [visit_b];
     ImportPage.ExportedPage.tags := None |}.

(** A state whose filters hold a tag twice, and one without repetition. *)
Definition state_dup : IndexDropdown.State :=
  {| IndexDropdown.searchVal := "";
     IndexDropdown.isLoading := false;
     IndexDropdown.displayFilters := ["later"; "news"; "work"];
     IndexDropdown.filters := ["work"; "news"; "news"];
     IndexDropdown.focused := 0 |}.

Definition state1 : IndexDropdown.State :=
  {| IndexDropdown.searchVal := "";
     IndexDropdown.isLoading := false;
     IndexDropdown.displayFilters := ["later"; "news"; "work"];
     IndexDropdown.filters := ["work"; "news"; "later"];
     IndexDropdown.focused := 0 |}.

(** "Work" has been typed and the focus is on the row for a new tag. *)
Definition state_typing : IndexDropdown.State :=
  {| IndexDropdown.searchVal := " Work ";
     IndexDropdown.isLoading := false;
     IndexDropdown.displayFilters := ["later"; "news"];
     IndexDropdown.filters := ["news"];
     IndexDropdown.focused := 2 |}.

(** The focus is still on that row, but the input now names a displayed
    tag. *)
Definition state_stale : IndexDropdown.State :=
  {| IndexDropdown.searchVal := "news";
     IndexDropdown.isLoading := false;
     IndexDropdown.displayFilters := ["later"; "news"];
     IndexDropdown.filters := ["news"];
     IndexDropdown.focused := 2 |}.

(** A dropdown used as a plain filter: no url, no initial filters. *)
Definition props_plain : IndexDropdown.Props :=
  {| IndexDropdown.source := IndexDropdown.tag;
     IndexDropdown.url := None;
     IndexDropdown.tabId := None;
     IndexDropdown.initFilters := [] |}.

(** Every filter is displayed, and the focus is on a tag the page lacks. *)
Definition state_all : IndexDropdown.State :=
  {| IndexDropdown.searchVal := "";
     IndexDropdown.isLoading := false;
     IndexDropdown.displayFilters := ["news"; "later"];
     IndexDropdown.filters := ["later"];
     IndexDropdown.focused := 0 |}.

End Examples.

(** * Properties *)

(** ** storage/index.ts *)
Module StorageSpec.
Import Js Storage Examples.

Section Registrations.
Context {Migration : Type}.
Implicit Types (st : InitState) (h : list (DexieSchema Migration)).
Implicit Types (e : DexieSchema Migration) (base : Schema) (i : nat).

Lemma upgradeCallback_id (ms : list Migration) (db : Database) :
  upgradeCallback ms db = db.
Proof. unfold upgradeCallback. induction ms as [|m ms IH]; [done|]. apply IH. Qed.

Lemma merged_nil base table : merged base [] table = base !! table.
Proof. done. Qed.

(** Merging a change into the base first, or counting it as the oldest
    change, describes the same schema. *)
Lemma merged_cons base (c : Schema) (cs : list Schema) table :
  merged base (c :: cs) table = merged (Object_assign base c) cs table.
Proof.
  unfold merged, Object_assign. cbn [latestChange].
  destruct (latestChange cs table) as [spec|]; [done|].
  rewrite lookup_union. by destruct (c !! table), (base !! table).
Qed.

(** Registrations are only ever appended. *)
Lemma registered_foldl_app st h :
  ∃ new, registered (foldl registerEntry st h) = registered st ++ new
         ∧ length new = length h.
Proof.
  revert st. induction h as [|e h IH]; intros st; cbn [foldl].
  - exists []. by rewrite app_nil_r.
  - destruct (IH (registerEntry st e)) as (new & -> & Hlen).
    exists ({| reg_version := baseVersion + version e;
               reg_stores := Object_assign (baseSchema_obj st) (schema e);
               reg_upgrade := Some (upgradeCallback (migrations e)) |} :: new).
    cbn [registerEntry registered length]. rewrite <- app_assoc. split; [done|].
    by rewrite Hlen.
Qed.

Lemma registered_foldl_old st h j r :
  registered st !! j = Some r →
  registered (foldl registerEntry st h) !! j = Some r.
Proof.
  intros Hj. destruct (registered_foldl_app st h) as (new & -> & _).
  by apply lookup_app_l_Some.
Qed.

(** The registration made for the [i]-th entry of the history. *)
Lemma registered_foldl_lookup st h i e :
  h !! i = Some e →
  ∃ r, registered (foldl registerEntry st h) !! (length (registered st) + i)%nat
         = Some r
       ∧ reg_version r = baseVersion + version e
       ∧ reg_upgrade r = Some (upgradeCallback (migrations e))
       ∧ ∀ table, reg_stores r !! table
                  = merged (baseSchema_obj st) (schema <$> take (S i) h) table.
Proof.
  revert st i. induction h as [|e0 h IH]; intros st i Hi; [done|].
  destruct i as [|i]; cbn [foldl].
  - injection Hi as ->.
    eexists. split.
    + apply registered_foldl_old. cbn [registerEntry registered].
      rewrite Nat.add_0_r. apply list_lookup_middle. done.
    + cbn [reg_version reg_upgrade reg_stores]. repeat split.
      intros table. change (take 1 (e :: h)) with [e].
      cbn [fmap list_fmap]. by rewrite merged_cons, merged_nil.
  - destruct (IH (registerEntry st e0) i Hi) as (r & Hr & Hv & Hu & Hs).
    exists r. cbn [registerEntry registered baseSchema_obj] in Hr, Hs.
    rewrite length_app in Hr. cbn [length] in Hr.
    replace (length (registered st) + S i)%nat
      with (length (registered st) + 1 + i)%nat by lia.
    repeat split; try done.
    intros table. rewrite Hs.
    change (take (S (S i)) (e0 :: h)) with (e0 :: take (S i) h).
    by rewrite fmap_cons, merged_cons.
Qed.

(** Every registered upgrade returns the data it is given. *)
Lemma registered_foldl_upgrades st h (r : Registration) :
  (∀ r0, r0 ∈ registered st → ∀ db, runUpgrade r0 db = db) →
  r ∈ registered (foldl registerEntry st h) → ∀ db, runUpgrade r db = db.
Proof.
  revert st. induction h as [|e h IH]; intros st Hst; cbn [foldl]; [by apply Hst|].
  apply IH. cbn [registerEntry registered].
  intros r0 [Hr0| ->%list_elem_of_singleton]%elem_of_app db; [by apply Hst|].
  apply upgradeCallback_id.
Qed.

Lemma registered_foldl_versions st h :
  reg_version <$> registered (foldl registerEntry st h)
  = (reg_version <$> registered st) ++ ((λ e, baseVersion + version e) <$> h).
Proof.
  revert st. induction h as [|e h IH]; intros st; cbn [foldl].
  - by rewrite app_nil_r.
  - rewrite IH. cbn [registerEntry registered].
    rewrite fmap_app, <- app_assoc. done.
Qed.

Lemma increasing_shift (k : Z) (l : list Z) :
  increasing l = true → increasing ((λ v, k + v) <$> l) = true.
Proof.
  induction l as [|x [|y l] IH]; [done..|].
  cbn [increasing fmap list_fmap] in *.
  rewrite !andb_true_iff, !bool_decide_eq_true.
  intros [Hxy Hl]. split; [lia|]. by apply IH.
Qed.

End Registrations.

Lemma clear_lookup (db : Database) (name table : string) :
  clear name db !! table
  = if decide (name = table) then (λ _, []) <$> db !! table else db !! table.
Proof.
  unfold clear. rewrite lookup_alter. by case_decide; subst.
Qed.

Lemma foldl_clear_lookup (names : list string) (db : Database) (table : string) :
  foldl (λ db' name, clear name db') db names !! table
  = if decide (table ∈ names) then (λ _, []) <$> db !! table else db !! table.
Proof.
  revert db. induction names as [|n names IH]; intros db; cbn [foldl].
  - rewrite decide_False; [done|]. apply not_elem_of_nil.
  - rewrite IH, clear_lookup.
    destruct (decide (table ∈ names)) as [Hin|Hin],
             (decide (table ∈ n :: names)) as [Hin'|Hin'],
             (decide (n = table)) as [Hn|Hn];
      try done; subst.
    + by destruct (db !! table).
    + destruct Hin'. apply elem_of_cons. by right.
    + destruct Hin'. apply elem_of_cons. by right.
    + apply elem_of_cons in Hin' as [->|?]; done.
    + destruct Hin'. apply elem_of_cons. by left.
Qed.

Lemma elem_of_tables (db : Database) (table : string) :
  table ∈ tables db ↔ is_Some (db !! table).
Proof.
  unfold tables. rewrite list_elem_of_fmap. split.
  - intros ([k rows] & -> & Hin). apply elem_of_map_to_list in Hin. by eexists.
  - intros [rows Hr]. exists (table, rows). split; [done|].
    by apply elem_of_map_to_list.
Qed.

Lemma initSchema_defined {Migration : Type} (h : list (DexieSchema Migration)) :
  _initSchema (Some h)
  = foldl registerEntry
      {| baseSchema_obj := baseSchema;
         registered := [ {| reg_version := baseVersion;
                            reg_stores := baseSchema;
                            reg_upgrade := None |} ] |} h.
Proof. reflexivity. Qed.

(** Without a storage manager only the base version is registered. *)
Lemma initSchema_undefined {Migration : Type} :
  registered (_initSchema (Migration := Migration) None)
  = [ {| reg_version := 1; reg_stores := baseSchema; reg_upgrade := None |} ].
Proof. reflexivity. Qed.

(** The [baseSchema] object is shared: once the loop is over it holds the
    stores of the last registration. *)
Lemma initSchema_object_is_last {Migration : Type} (h : list (DexieSchema Migration)) :
  reg_stores <$> last (registered (_initSchema (Some h)))
  = Some (baseSchema_obj (_initSchema (Some h))).
Proof.
  rewrite initSchema_defined.
  induction h as [|e h IH] using rev_ind; [done|].
  rewrite foldl_app. cbn [foldl registerEntry registered baseSchema_obj].
  by rewrite last_snoc.
Qed.

(** C1: for every schema history, the registration made for the i-th
    entry (the one after the base registration and after those of the
    entries before it) carries Dexie version 1 + v_i and exactly the base
    schema merged with the schema changes of the entries 0..i. *)
Theorem initSchema_registers_merged_schema {Migration : Type}
    (h : list (DexieSchema Migration)) (i : nat) (e : DexieSchema Migration) :
  h !! i = Some e →
  ∃ r, registered (_initSchema (Some h)) !! S i = Some r
       ∧ reg_version r = 1 + version e
       ∧ ∀ table, reg_stores r !! table
                  = merged baseSchema (schema <$> take (S i) h) table.
Proof.
  intros Hi. rewrite initSchema_defined.
  edestruct (registered_foldl_lookup (Migration := Migration))
    as (r & Hr & Hv & _ & Hs); [exact Hi|].
  exists r. cbn [registered length baseSchema_obj] in Hr, Hs.
  split; [exact Hr|]. split; [exact Hv|exact Hs].
Qed.

Lemma initSchema_registers_merged_schema_witness :
  history0 !! 1%nat = Some entry2
  ∧ ∃ r, registered (_initSchema (Some history0)) !! 2%nat = Some r
         ∧ reg_version r = 1 + version entry2
         ∧ ∀ table, reg_stores r !! table
                    = merged baseSchema (schema <$> take 2 history0) table.
Proof.
  split; [reflexivity|].
  apply (initSchema_registers_merged_schema history0 1 entry2). reflexivity.
Defined.

(** C2: the upgrade registered for any history entry is the callback that
    walks the entry's migrations, and running it on any database state
    returns that state: every record of every table is as before. *)
Theorem upgrade_applies_no_migration {Migration : Type}
    (h : list (DexieSchema Migration)) (i : nat) (e : DexieSchema Migration) :
  h !! i = Some e →
  ∃ r f, registered (_initSchema (Some h)) !! S i = Some r
         ∧ reg_upgrade r = Some f
         ∧ f = upgradeCallback (migrations e)
         ∧ ∀ db : Database, f db = db.
Proof.
  intros Hi. rewrite initSchema_defined.
  edestruct (registered_foldl_lookup (Migration := Migration))
    as (r & Hr & _ & Hu & _); [exact Hi|].
  exists r, (upgradeCallback (migrations e)).
  cbn [registered length] in Hr.
  split; [exact Hr|]. split; [exact Hu|]. split; [done|].
  intros db. apply upgradeCallback_id.
Qed.

Lemma upgrade_applies_no_migration_witness :
  history0 !! 0%nat = Some entry1
  ∧ ∃ r f, registered (_initSchema (Some history0)) !! 1%nat = Some r
           ∧ reg_upgrade r = Some f
           ∧ f = upgradeCallback (migrations entry1)
           ∧ ∀ db : Database, f db = db.
Proof.
  split; [reflexivity|].
  apply (upgrade_applies_no_migration history0 0 entry1). reflexivity.
Defined.

(** C4: whatever the history, the first registration is version 1 with the
    base schema, and the base schema has exactly the five tables pages,
    visits, bookmarks, tags and favIcons, whose primary keys are url,
    [time+url], url, [name+url] and hostname. *)
Theorem base_schema_tables {Migration : Type}
    (h : option (list (DexieSchema Migration))) :
  (∃ r, head (registered (_initSchema h)) = Some r
        ∧ reg_version r = 1 ∧ reg_stores r = baseSchema)
  ∧ dom baseSchema
    = ({[ "pages"; "visits"; "bookmarks"; "tags"; "favIcons" ]} : gset string)
  ∧ size baseSchema = 5%nat
  ∧ primaryKey baseSchema "pages" = Some ["url"]
  ∧ primaryKey baseSchema "visits" = Some ["time"; "url"]
  ∧ primaryKey baseSchema "bookmarks" = Some ["url"]
  ∧ primaryKey baseSchema "tags" = Some ["name"; "url"]
  ∧ primaryKey baseSchema "favIcons" = Some ["hostname"].
Proof.
  split.
  - exists {| reg_version := 1; reg_stores := baseSchema; reg_upgrade := None |}.
    split; [|split; reflexivity].
    unfold _initSchema. rewrite head_lookup.
    by apply registered_foldl_old.
  - repeat split; vm_compute; reflexivity.
Qed.

Lemma increasing_shift_eq (k : Z) (l : list Z) :
  increasing ((λ v, k + v) <$> l) = increasing l.
Proof.
  induction l as [|x [|y l] IH]; [done..|].
  cbn [increasing fmap list_fmap] in *. rewrite IH.
  f_equal. apply bool_decide_ext. lia.
Qed.

(** In the integers of the model: the registered versions are 1 followed
    by 1 + version per entry, a shift that keeps strict increase. *)
Lemma registered_versions_shifted {Migration : Type}
    (h : list (DexieSchema Migration)) :
  reg_version <$> registered (_initSchema (Some h))
  = 1 :: ((λ e, 1 + version e) <$> h)
  ∧ (increasing (version <$> h) = true →
     increasing (tail (reg_version <$> registered (_initSchema (Some h))))
     = true)
  ∧ (increasing (0 :: (version <$> h)) = true →
     increasing (reg_version <$> registered (_initSchema (Some h))) = true).
Proof.
  assert (reg_version <$> registered (_initSchema (Some h))
          = 1 :: ((λ e, 1 + version e) <$> h)) as Hvs.
  { rewrite initSchema_defined. by rewrite registered_foldl_versions. }
  rewrite Hvs. split; [done|].
  change ((λ e, 1 + version e) <$> h) with (((λ v, 1 + v) ∘ version) <$> h).
  rewrite list_fmap_compose. split.
  - intros Hinc. cbn [tail]. by apply increasing_shift.
  - intros Hinc.
    change (1 :: ((λ v, 1 + v) <$> (version <$> h)))
      with ((λ v, 1 + v) <$> (0 :: (version <$> h))).
    by rewrite increasing_shift_eq.
Qed.

(** On a safe integer the JavaScript sum [1 + v] is the integer sum. *)
Lemma jsAdd_safe (v : Z) : isSafeInteger v = true → jsAdd 1 v = 1 + v.
Proof.
  unfold isSafeInteger, jsAdd, toBinary64. intros Hv%Z.ltb_lt.
  cbv zeta. destruct (Z.abs (1 + v) <=? 2 ^ 53) eqn:Hle; [done|].
  apply Z.leb_gt in Hle. lia.
Qed.

(** Above the safe integers the JavaScript sum repeats: 1 + (2^53 - 1) and
    1 + 2^53 are the same number. *)
Example jsAdd_rounds_above_safe :
  isSafeInteger (2 ^ 53) = false
  ∧ jsAdd 1 (2 ^ 53 - 1) = 2 ^ 53
  ∧ jsAdd 1 (2 ^ 53) = 2 ^ 53.
Proof. repeat split; vm_compute; reflexivity. Qed.

(** C5: as amended.  For a history whose versions are safe integers, the registered version numbers are 1 for the base schema
    followed by the JavaScript sum 1 + version, which is the integer
    1 + version, for each history entry in order; when the versions of the
    history are strictly increasing, so are the versions registered for
    its entries; and with the base version in front the sequence is
    strictly increasing when, besides, the first history version is above
    0. *)
Theorem registered_versions_of_safe_history {Migration : Type}
    (h : list (DexieSchema Migration)) :
  Forall (λ e, isSafeInteger (version e) = true) h →
  reg_version <$> registered (_initSchema (Some h))
  = 1 :: ((λ e, jsAdd 1 (version e)) <$> h)
  ∧ (∀ i e, h !! i = Some e →
            reg_version <$> registered (_initSchema (Some h)) !! S i
            = Some (1 + version e))
  ∧ (increasing (version <$> h) = true →
     increasing (tail (reg_version <$> registered (_initSchema (Some h))))
     = true)
  ∧ (increasing (0 :: (version <$> h)) = true →
     increasing (reg_version <$> registered (_initSchema (Some h))) = true).
Proof.
  intros Hsafe.
  destruct (registered_versions_shifted h) as (Hvs & Htail & Hall).
  split; [|split; [|by split]].
  - rewrite Hvs. f_equal. apply Forall_fmap_ext_1.
    eapply Forall_impl; [exact Hsafe|].
    intros e He. cbn beta. by rewrite jsAdd_safe.
  - intros i e Hi.
    assert ((reg_version <$> registered (_initSchema (Some h))) !! S i
            = Some (1 + version e)) as Hlook.
    { rewrite Hvs.
      change ((1 :: ((λ e, 1 + version e) <$> h)) !! S i)
        with (((λ e, 1 + version e) <$> h) !! i).
      by rewrite list_lookup_fmap, Hi. }
    by rewrite list_lookup_fmap in Hlook.
Qed.

Lemma registered_versions_of_safe_history_witness :
  Forall (λ e, isSafeInteger (version e) = true) history0
  ∧ reg_version <$> registered (_initSchema (Some history0)) = [1; 2; 3]
  ∧ increasing (reg_version <$> registered (_initSchema (Some history0)))
    = true.
Proof.
  assert (Forall (λ e, isSafeInteger (version e) = true) history0) as Hsafe
    by (repeat constructor).
  destruct (registered_versions_of_safe_history history0 Hsafe)
    as (Hvs & _ & _ & Hall).
  split; [exact Hsafe|]. split; [rewrite Hvs; reflexivity|].
  apply Hall. reflexivity.
Defined.

(** C5: as it was stated the claim fails.  The one-entry history with version 0 has
    strictly increasing versions, yet version 1 is registered twice, once
    for the base schema and once for the entry. *)
Lemma registered_versions_repeat_base :
  increasing (version <$> history_from_zero) = true
  ∧ reg_version <$> registered (_initSchema (Some history_from_zero)) = [1; 1]
  ∧ increasing
      (reg_version <$> registered (_initSchema (Some history_from_zero)))
    = false.
Proof. repeat split. Qed.

(** The base version repeats when the history starts at version 0. *)
Example registered_versions_from_zero :
  reg_version
    <$> registered
          (_initSchema
             (Some [ {| version := 0; schema := ∅;
                        migrations := @nil string |} ]))
  = [1; 1].
Proof. reflexivity. Qed.

(** Whatever subset of the registered upgrades Dexie runs, and in whatever
    order, the stored data is as before. *)
Lemma registered_upgrades_keep_data {Migration : Type}
    (h : option (list (DexieSchema Migration)))
    (rs : list Registration) (db : Database) :
  (∀ r, r ∈ rs → r ∈ registered (_initSchema h)) →
  foldl (λ db' r, runUpgrade r db') db rs = db.
Proof.
  intros Hrs. induction rs as [|r rs IH]; [done|].
  cbn [foldl].
  assert (runUpgrade r db = db) as ->.
  { assert (r ∈ registered (_initSchema h)) as Hr
      by (apply Hrs, elem_of_cons; by left).
    unfold _initSchema in Hr.
    eapply registered_foldl_upgrades; [|exact Hr].
    intros r0 Hr0%list_elem_of_singleton db0. by subst. }
  apply IH. intros r' Hr'. apply Hrs, elem_of_cons. by right.
Qed.

(** C9: after [clearData] every table the database had is still there and
    holds no record, whatever it held before; no table appears. *)
Theorem clearData_empties_every_table (db : Database) (table : string) :
  clearData db !! table = (λ _, []) <$> db !! table.
Proof.
  unfold clearData. rewrite foldl_clear_lookup.
  case_decide as Hin; [done|].
  destruct (db !! table) eqn:Hl; [|done].
  destruct Hin. apply elem_of_tables. by eexists.
Qed.

(** *** Further properties of the storage class *)

(** Every history entry registers exactly one version after the base one. *)
Lemma initSchema_registration_count {Migration : Type}
    (h : list (DexieSchema Migration)) :
  length (registered (_initSchema (Some h))) = S (length h).
Proof.
  rewrite initSchema_defined.
  destruct (registered_foldl_app
              {| baseSchema_obj := baseSchema;
                 registered := [ {| reg_version := baseVersion;
                                    reg_stores := baseSchema;
                                    reg_upgrade := None |} ] |} h)
    as (new & -> & Hlen).
  rewrite length_app, Hlen. done.
Qed.

Lemma registerEntry_dom {Migration : Type} (st : InitState)
    (h : list (DexieSchema Migration)) :
  dom (baseSchema_obj st) ⊆ dom (baseSchema_obj (foldl registerEntry st h)).
Proof.
  revert st. induction h as [|e h IH]; intros st; cbn [foldl]; [done|].
  etrans; [|apply IH]. cbn [registerEntry baseSchema_obj].
  unfold Object_assign. rewrite dom_union. apply union_subseteq_r.
Qed.

(** The stores of the registration at position [j] are the contents of the
    shared object after [j] entries. *)
Lemma registered_lookup_take {Migration : Type}
    (h : list (DexieSchema Migration)) (j : nat) (r : Registration) :
  registered (_initSchema (Some h)) !! j = Some r →
  reg_stores r = baseSchema_obj (_initSchema (Some (take j h))).
Proof.
  revert j r. induction h as [|e h IH] using rev_ind; intros j r Hr.
  - destruct j as [|j]; [|done]. injection Hr as <-. by rewrite take_nil.
  - rewrite initSchema_defined, foldl_app in Hr. cbn [foldl] in Hr.
    cbn [registerEntry registered] in Hr.
    rewrite <- initSchema_defined in Hr.
    pose proof (initSchema_registration_count h) as Hlen.
    destruct (decide (j < length (registered (_initSchema (Some h))))%nat)
      as [Hlt|Hge].
    + rewrite lookup_app_l in Hr by done.
      rewrite take_app_le by lia. by apply IH.
    + rewrite lookup_app_r in Hr by lia.
      destruct (j - length (registered (_initSchema (Some h))))%nat
        as [|k] eqn:Hk; [|done].
      injection Hr as <-. cbn [reg_stores].
      assert (j = S (length h)) as -> by lia.
      rewrite take_ge by (rewrite length_app; cbn; lia).
      rewrite (initSchema_defined (h ++ [e])), foldl_app. done.
Qed.

(** X1: the schema only grows.  A table present in one registered version
    is present in every version registered after it; in particular the
    five base tables are in all of them. *)
Theorem initSchema_tables_never_dropped {Migration : Type}
    (h : list (DexieSchema Migration)) (i j : nat) (ri rj : Registration) :
  (i ≤ j)%nat →
  registered (_initSchema (Some h)) !! i = Some ri →
  registered (_initSchema (Some h)) !! j = Some rj →
  dom baseSchema ⊆ dom (reg_stores ri)
  ∧ dom (reg_stores ri) ⊆ dom (reg_stores rj).
Proof.
  intros Hij Hi Hj.
  rewrite (registered_lookup_take h i ri Hi), (registered_lookup_take h j rj Hj).
  rewrite !initSchema_defined. split.
  - apply (registerEntry_dom
             {| baseSchema_obj := baseSchema;
                registered := [ {| reg_version := baseVersion;
                                   reg_stores := baseSchema;
                                   reg_upgrade := None |} ] |}).
  - replace (take j h) with (take i h ++ take (j - i) (drop i h)).
    + rewrite foldl_app. apply registerEntry_dom.
    + rewrite take_take_drop. f_equal. lia.
Qed.

Lemma initSchema_tables_never_dropped_witness :
  ∃ ri rj,
    registered (_initSchema (Some history0)) !! 1%nat = Some ri
    ∧ registered (_initSchema (Some history0)) !! 2%nat = Some rj
    ∧ dom baseSchema ⊆ dom (reg_stores ri)
    ∧ dom (reg_stores ri) ⊆ dom (reg_stores rj).
Proof.
  do 2 eexists. split; [reflexivity|]. split; [reflexivity|].
  eapply (initSchema_tables_never_dropped history0 1 2);
    [lia|reflexivity|reflexivity].
Defined.

(** X2: [Object.assign] writes into the one [baseSchema] object.  When
    [_initSchema] is done that object holds the merge of the whole history,
    which is also what the last registered version was given. *)
Theorem initSchema_base_object_accumulates {Migration : Type}
    (h : list (DexieSchema Migration)) :
  reg_stores <$> last (registered (_initSchema (Some h)))
  = Some (baseSchema_obj (_initSchema (Some h)))
  ∧ ∀ table, baseSchema_obj (_initSchema (Some h)) !! table
             = merged baseSchema (schema <$> h) table.
Proof.
  split.
  - rewrite !initSchema_defined.
    induction h as [|e h IH] using rev_ind; [done|].
    rewrite foldl_app. cbn [foldl registerEntry registered baseSchema_obj].
    by rewrite last_snoc.
  - intros table. rewrite initSchema_defined.
    generalize baseSchema at 1 3.
    generalize [ {| reg_version := baseVersion; reg_stores := baseSchema;
                    reg_upgrade := None |} ].
    induction h as [|e h IH]; intros regs base; [done|].
    cbn [foldl registerEntry baseSchema_obj registered].
    rewrite fmap_cons, merged_cons. apply IH.
Qed.

(** X3: a registered version differs from the one before it exactly on the
    tables its history entry names, and for such a table the entry's index
    string replaces the previous one as a whole. *)
Theorem initSchema_entry_overrides_table {Migration : Type}
    (h : list (DexieSchema Migration)) (i : nat) (e : DexieSchema Migration)
    (before after : Registration) (table : string) :
  h !! i = Some e →
  registered (_initSchema (Some h)) !! i = Some before →
  registered (_initSchema (Some h)) !! S i = Some after →
  reg_stores after !! table
  = match schema e !! table with
    | Some indexes => Some indexes
    | None => reg_stores before !! table
    end.
Proof.
  intros He Hb Ha.
  rewrite (registered_lookup_take h i before Hb),
          (registered_lookup_take h (S i) after Ha).
  rewrite (take_S_r h i e He), !initSchema_defined, foldl_app.
  cbn [foldl registerEntry baseSchema_obj]. unfold Object_assign.
  rewrite lookup_union.
  by destruct (schema e !! table),
       (baseSchema_obj
          (foldl registerEntry
             {| baseSchema_obj := baseSchema;
                registered := [ {| reg_version := baseVersion;
                                   reg_stores := baseSchema;
                                   reg_upgrade := None |} ] |}
             (take i h)) !! table).
Qed.

Lemma initSchema_entry_overrides_table_witness :
  ∃ before after,
    registered (_initSchema (Some history0)) !! 0%nat = Some before
    ∧ registered (_initSchema (Some history0)) !! 1%nat = Some after
    ∧ reg_stores after !! "pages"
      = match schema entry1 !! "pages" with
        | Some indexes => Some indexes
        | None => reg_stores before !! "pages"
        end.
Proof.
  do 2 eexists. split; [reflexivity|]. split; [reflexivity|].
  apply (initSchema_entry_overrides_table history0 0 entry1); reflexivity.
Defined.

(** X4: [clearData] keeps the set of tables and clearing again changes
    nothing. *)
Theorem clearData_keeps_tables_idempotent (db : Database) :
  dom (clearData db) = dom db ∧ clearData (clearData db) = clearData db.
Proof.
  assert (∀ d : Database, ∀ table,
            clearData d !! table = (λ _, []) <$> d !! table) as Hlook.
  { intros d table. unfold clearData. rewrite foldl_clear_lookup.
    case_decide as Hin; [done|].
    destruct (d !! table) eqn:Hl; [|done].
    destruct Hin. apply elem_of_tables. by eexists. }
  split.
  - apply set_eq. intros table. rewrite !elem_of_dom, Hlook.
    by rewrite fmap_is_Some.
  - apply map_eq. intros table. rewrite !Hlook.
    by destruct (db !! table).
Qed.

Lemma databaseName_not_empty (dbName : option string) :
  databaseName dbName ≠ "".
Proof. destruct dbName as [name|]; cbn; [|done]. by case_decide. Qed.

(** X5: the constructor never hands Dexie an empty database name: a
    missing or empty [dbName] becomes "memex" and any other name is used as
    given.  It registers one version more than the storage manager's
    history has entries, and only the base version, with the five base
    tables, when no storage manager is given. *)
Theorem construct_name_and_versions {Migration Registry : Type}
    (getDexieHistory : Registry → list (DexieSchema Migration))
    (props : Props Registry) :
  (construct getDexieHistory props).1 ≠ ""
  ∧ (construct getDexieHistory props).1
    = match dbName props with
      | Some name => if decide (name = "") then "memex" else name
      | None => "memex"
      end
  ∧ length (registered (construct getDexieHistory props).2)
    = match storageManager props with
      | Some registry => S (length (getDexieHistory registry))
      | None => 1%nat
      end
  ∧ match storageManager props with
    | Some _ => True
    | None =>
        registered (construct getDexieHistory props).2
        = [ {| reg_version := 1; reg_stores := baseSchema;
               reg_upgrade := None |} ]
    end.
Proof.
  unfold construct. cbn [fst snd].
  split; [apply databaseName_not_empty|]. split; [done|].
  destruct (storageManager props) as [registry|]; [|done].
  split; [|done]. cbn [fmap option_fmap option_map].
  apply initSchema_registration_count.
Qed.

End StorageSpec.

(** ** Effectful computations *)
Module ExecSpec.
Import Js.

Lemma bind_ok {E A B} (tr : list E) (a : A) (k : A → Exec E B) :
  MkExec tr (inr a) ≫= k = MkExec (tr ++ trace (k a)) (outcome (k a)).
Proof. reflexivity. Qed.

Lemma bind_fail {E A B} (tr : list E) (f : Failure) (k : A → Exec E B) :
  MkExec (A := A) tr (inl f) ≫= k = MkExec tr (inl f).
Proof. reflexivity. Qed.

Lemma bind_singleton {A B} (g : A → B) (l : list A) :
  (l ≫= λ x, [g x]) = g <$> l.
Proof. induction l as [|x l IH]; [done|]. cbn. by rewrite IH. Qed.

(** A loop whose body cannot fail runs the body on every element. *)
Lemma forEach_ok {E A} (f : A → Exec E unit) (arr : list A) :
  (∀ x, outcome (f x) = inr tt) →
  forEach f arr = MkExec (arr ≫= λ x, trace (f x)) (inr tt).
Proof.
  intros Hf. induction arr as [|x arr IH]; [done|].
  cbn [forEach]. rewrite IH.
  change ((x :: arr) ≫= λ y, trace (f y))
    with (trace (f x) ++ (arr ≫= λ y, trace (f y))).
  specialize (Hf x). destruct (f x) as [tr o]. cbn [outcome] in Hf. subst o.
  by rewrite bind_ok.
Qed.

End ExecSpec.

(** ** import.ts *)
Module ImportPageSpec.
Import Js ImportPage ExecSpec Examples.

Lemma hasMeta_keys (v : JsObject) :
  hasMeta v ↔ 0 < keys_length (delete "timestamp" v).
Proof.
  unfold hasMeta, keys_length. split.
  - intros (k & Hk & x & Hx).
    assert (size (delete "timestamp" v) ≠ 0%nat); [|lia].
    apply map_size_non_empty_iff. intros Hempty.
    assert (delete "timestamp" v !! k = Some x) as Hd
      by (by rewrite lookup_delete_ne).
    by rewrite Hempty, lookup_empty in Hd.
  - intros Hsize.
    assert (size (delete "timestamp" v) ≠ 0%nat) as Hne by lia.
    apply map_size_non_empty_iff, map_choose in Hne as (k & x & Hkx).
    exists k. destruct (decide ("timestamp" = k)) as [<-|Hk].
    + by rewrite lookup_delete_eq in Hkx.
    + rewrite lookup_delete_ne in Hkx by done. split; [done|by eexists].
Qed.

Lemma updateVisit_outcome (url : JsVal) (v : JsObject) :
  outcome (updateVisit url v) = inr tt.
Proof. unfold updateVisit. by case_bool_decide. Qed.

Lemma elem_of_updateVisit (url : JsVal) (v : JsObject) (c : Call) :
  c ∈ trace (updateVisit url v)
  ↔ hasMeta v
    ∧ c = updateTimestampMeta url (prop v "timestamp") (delete "timestamp" v).
Proof.
  rewrite hasMeta_keys. unfold updateVisit.
  case_bool_decide; cbn [trace call ret].
  - rewrite list_elem_of_singleton. tauto.
  - rewrite elem_of_nil. tauto.
Qed.

(** What [importPage] does on a record that has its two arrays. *)
Lemma importPage_defined (page : ExportedPage.t)
    (vs : list JsObject) (ts : list JsVal) :
  ExportedPage.visits page = Some vs →
  ExportedPage.tags page = Some ts →
  importPage page
  = MkExec
      (addPage
         {| AddPageArgs.pageDoc :=
              {| AddPageArgs.content :=
                   {| AddPageArgs.fullText := ExportedPage.text page;
                      AddPageArgs.title := ExportedPage.fullTitle page |};
                 AddPageArgs.url := ExportedPage.fullUrl page;
                 AddPageArgs.screenshotURI := ExportedPage.screenshotURI page;
                 AddPageArgs.favIconURI := ExportedPage.favIconURI page |};
            AddPageArgs.bookmark := ExportedPage.bookmark page;
            AddPageArgs.visits := (λ visit, prop visit "timestamp") <$> vs |}
       :: (addTag (ExportedPage.url page) <$> ts)
       ++ (vs ≫= λ v, trace (updateVisit (ExportedPage.url page) v)))
      (inr tt).
Proof.
  intros Hvs Hts.
  pose proof (forEach_ok (λ tag, call (addTag (ExportedPage.url page) tag)) ts
                (λ _, eq_refl)) as Htags.
  pose proof (forEach_ok (updateVisit (ExportedPage.url page)) vs
                (updateVisit_outcome _)) as Hmeta.
  unfold importPage. rewrite Hvs, Hts. cbn [deref].
  unfold mbind, Exec_bind, bind, ret. cbn [trace outcome].
  rewrite Htags, Hmeta. cbn [trace outcome call app].
  by rewrite bind_singleton.
Qed.

(** Without [visits] the first statement already throws. *)
Lemma importPage_no_visits (page : ExportedPage.t) :
  ExportedPage.visits page = None →
  importPage page = MkExec [] (inl TypeError).
Proof. intros Hvs. unfold importPage. by rewrite Hvs. Qed.

(** Without [tags] the page is stored and then the import throws. *)
Lemma importPage_no_tags (page : ExportedPage.t) (vs : list JsObject) :
  ExportedPage.visits page = Some vs →
  ExportedPage.tags page = None →
  ∃ args, importPage page = MkExec [addPage args] (inl TypeError).
Proof. intros Hvs Hts. unfold importPage. rewrite Hvs, Hts. by eexists. Qed.

(** C3: for a record with its visits and tags, [importPage] first calls
    [addPage] with the record's text as content.fullText, its fullTitle as
    content.title, its fullUrl as url, its screenshotURI, favIconURI and
    bookmark, and the timestamps of its visits in order; right after that
    it calls [addTag] with the record's url once for every tag, in order;
    all that follows are metadata updates, and the import completes. *)
Theorem importPage_stores_page_then_tags (page : ExportedPage.t)
    (vs : list JsObject) (ts : list JsVal) :
  ExportedPage.visits page = Some vs →
  ExportedPage.tags page = Some ts →
  ∃ updates,
    trace (importPage page)
    = addPage
        {| AddPageArgs.pageDoc :=
             {| AddPageArgs.content :=
                  {| AddPageArgs.fullText := ExportedPage.text page;
                     AddPageArgs.title := ExportedPage.fullTitle page |};
                AddPageArgs.url := ExportedPage.fullUrl page;
                AddPageArgs.screenshotURI := ExportedPage.screenshotURI page;
                AddPageArgs.favIconURI := ExportedPage.favIconURI page |};
           AddPageArgs.bookmark := ExportedPage.bookmark page;
           AddPageArgs.visits := (λ visit, prop visit "timestamp") <$> vs |}
      :: (addTag (ExportedPage.url page) <$> ts) ++ updates
    ∧ (∀ c, c ∈ updates →
            ∃ timestamp meta,
              c = updateTimestampMeta (ExportedPage.url page) timestamp meta)
    ∧ outcome (importPage page) = inr tt.
Proof.
  intros Hvs Hts. rewrite (importPage_defined page vs ts Hvs Hts).
  eexists. split; [reflexivity|]. split; [|reflexivity].
  intros c (v & Hc & _)%list_elem_of_bind.
  apply elem_of_updateVisit in Hc as [_ ->]. by do 2 eexists.
Qed.

Lemma importPage_stores_page_then_tags_witness :
  ∃ updates,
    trace (importPage page0)
    = addPage
        {| AddPageArgs.pageDoc :=
             {| AddPageArgs.content :=
                  {| AddPageArgs.fullText := JString "some text";
                     AddPageArgs.title := JString "A page" |};
                AddPageArgs.url := JString "https://example.com/a";
                AddPageArgs.screenshotURI := JUndefined;
                AddPageArgs.favIconURI := JString "data:," |};
           AddPageArgs.bookmark := JNumber 1500000000000;
           AddPageArgs.visits :=
             [JNumber 1500000000001; JNumber 1500000000002] |}
      :: [ addTag (JString "example.com/a") (JString "news");
           addTag (JString "example.com/a") (JString "later") ] ++ updates
    ∧ outcome (importPage page0) = inr tt.
Proof.
  destruct (importPage_stores_page_then_tags page0 visits0 tags0
              eq_refl eq_refl) as (updates & Htrace & _ & Hout).
  exists updates. split; [|exact Hout].
  rewrite Htrace. vm_compute. reflexivity.
Defined.

(** C6: for a record with its visits and tags and any of its visits,
    [importPage] calls updateTimestampMeta(page.url, timestamp, meta) with
    that visit's timestamp and its fields other than timestamp if and only
    if the visit has such a field; and no other metadata update is made. *)
Theorem importPage_updates_meta_iff (page : ExportedPage.t)
    (vs : list JsObject) (ts : list JsVal) :
  ExportedPage.visits page = Some vs →
  ExportedPage.tags page = Some ts →
  (∀ v, v ∈ vs →
        updateTimestampMeta (ExportedPage.url page) (prop v "timestamp")
                            (delete "timestamp" v)
          ∈ trace (importPage page)
        ↔ hasMeta v)
  ∧ (∀ url timestamp meta,
        updateTimestampMeta url timestamp meta ∈ trace (importPage page) →
        ∃ v, v ∈ vs ∧ hasMeta v ∧ url = ExportedPage.url page
             ∧ timestamp = prop v "timestamp" ∧ meta = delete "timestamp" v).
Proof.
  intros Hvs Hts. rewrite (importPage_defined page vs ts Hvs Hts).
  cbn [trace].
  assert (∀ url timestamp meta,
            updateTimestampMeta url timestamp meta
              ∈ addPage
                  {| AddPageArgs.pageDoc :=
                       {| AddPageArgs.content :=
                            {| AddPageArgs.fullText := ExportedPage.text page;
                               AddPageArgs.title := ExportedPage.fullTitle page |};
                          AddPageArgs.url := ExportedPage.fullUrl page;
                          AddPageArgs.screenshotURI := ExportedPage.screenshotURI page;
                          AddPageArgs.favIconURI := ExportedPage.favIconURI page |};
                     AddPageArgs.bookmark := ExportedPage.bookmark page;
                     AddPageArgs.visits := (λ visit, prop visit "timestamp") <$> vs |}
                :: (addTag (ExportedPage.url page) <$> ts)
                   ++ (vs ≫= λ v, trace (updateVisit (ExportedPage.url page) v)) →
            ∃ v, v ∈ vs ∧ hasMeta v ∧ url = ExportedPage.url page
                 ∧ timestamp = prop v "timestamp"
                 ∧ meta = delete "timestamp" v) as Honly.
  { intros url timestamp meta Hin.
    apply elem_of_cons in Hin as [Hin|Hin]; [done|].
    apply elem_of_app in Hin as [Hin|Hin].
    - apply list_elem_of_fmap in Hin as (t & Ht & _). done.
    - apply list_elem_of_bind in Hin as (v & Hc & Hv).
      apply elem_of_updateVisit in Hc as [Hmeta Hc].
      injection Hc as -> -> ->. by exists v. }
  split; [|exact Honly].
  intros v Hv. split.
  - intros Hin. apply Honly in Hin as (v' & _ & Hmeta & _ & _ & Heq).
    apply hasMeta_keys. rewrite Heq. by apply hasMeta_keys.
  - intros Hmeta. apply elem_of_cons. right. apply elem_of_app. right.
    apply list_elem_of_bind. exists v. split; [|done].
    by apply elem_of_updateVisit.
Qed.

Lemma importPage_updates_meta_iff_witness :
  hasMeta visit_b
  ∧ (updateTimestampMeta (ExportedPage.url page0) (prop visit_b "timestamp")
                         (delete "timestamp" visit_b)
       ∈ trace (importPage page0)
     ↔ hasMeta visit_b).
Proof.
  split.
  - exists "duration". split; [done|]. by eexists.
  - apply (proj1 (importPage_updates_meta_iff page0 visits0 tags0
                    eq_refl eq_refl) visit_b).
    apply elem_of_cons. right. apply elem_of_cons. by left.
Defined.

(** C8: [importPage] reads [page.visits] and [page.tags] without a guard.
    On a record that defines both arrays no TypeError is raised and the
    import completes; on a record without [visits] it raises a TypeError
    before any call to the storage functions has been made. *)
Theorem importPage_dereferences_unguarded :
  (∀ page, is_Some (ExportedPage.visits page) →
           is_Some (ExportedPage.tags page) →
           outcome (importPage page) = inr tt)
  ∧ (∃ page, ExportedPage.visits page = None
             ∧ importPage page = MkExec [] (inl TypeError)).
Proof.
  split.
  - intros page [vs Hvs] [ts Hts].
    by rewrite (importPage_defined page vs ts Hvs Hts).
  - exists page_without_visits. split; reflexivity.
Qed.

Lemma importPage_dereferences_unguarded_witness :
  outcome (importPage page0) = inr tt.
Proof.
  apply (proj1 importPage_dereferences_unguarded page0); by eexists.
Defined.

(** *** Further properties of [importPage] *)

Lemma importPage_tags_missing (page : ExportedPage.t) (vs : list JsObject) :
  ExportedPage.visits page = Some vs →
  ExportedPage.tags page = None →
  importPage page
  = MkExec
      [ addPage
          {| AddPageArgs.pageDoc :=
               {| AddPageArgs.content :=
                    {| AddPageArgs.fullText := ExportedPage.text page;
                       AddPageArgs.title := ExportedPage.fullTitle page |};
                  AddPageArgs.url := ExportedPage.fullUrl page;
                  AddPageArgs.screenshotURI := ExportedPage.screenshotURI page;
                  AddPageArgs.favIconURI := ExportedPage.favIconURI page |};
             AddPageArgs.bookmark := ExportedPage.bookmark page;
             AddPageArgs.visits := (λ visit, prop visit "timestamp") <$> vs |} ]
      (inl TypeError).
Proof. intros Hvs Hts. unfold importPage. by rewrite Hvs, Hts. Qed.

(** X6: a record that has [visits] but no [tags] is stored with [addPage]
    and then the import fails with a TypeError: no tag is added and no
    visit metadata is written. *)
Theorem importPage_without_tags (page : ExportedPage.t) (vs : list JsObject) :
  ExportedPage.visits page = Some vs →
  ExportedPage.tags page = None →
  importPage page
  = MkExec
      [ addPage
          {| AddPageArgs.pageDoc :=
               {| AddPageArgs.content :=
                    {| AddPageArgs.fullText := ExportedPage.text page;
                       AddPageArgs.title := ExportedPage.fullTitle page |};
                  AddPageArgs.url := ExportedPage.fullUrl page;
                  AddPageArgs.screenshotURI := ExportedPage.screenshotURI page;
                  AddPageArgs.favIconURI := ExportedPage.favIconURI page |};
             AddPageArgs.bookmark := ExportedPage.bookmark page;
             AddPageArgs.visits := (λ visit, prop visit "timestamp") <$> vs |} ]
      (inl TypeError).
Proof. apply importPage_tags_missing. Qed.

Lemma importPage_without_tags_witness :
  trace (importPage page_without_tags)
  = [ addPage
        {| AddPageArgs.pageDoc :=
             {| AddPageArgs.content :=
                  {| AddPageArgs.fullText := JString "some text";
                     AddPageArgs.title := JUndefined |};
                AddPageArgs.url := JString "https://example.com/a";
                AddPageArgs.screenshotURI := JUndefined;
                AddPageArgs.favIconURI := JUndefined |};
           AddPageArgs.bookmark := JUndefined;
           AddPageArgs.visits := [JNumber 1500000000002] |} ]
  ∧ outcome (importPage page_without_tags) = inl TypeError.
Proof.
  rewrite (importPage_without_tags page_without_tags [visit_b] eq_refl eq_refl).
  split; vm_compute; reflexivity.
Defined.

Lemma length_updateVisit (url : JsVal) (vs : list JsObject) :
  length (vs ≫= λ v, trace (updateVisit url v))
  = length (filter (λ v : JsObject, delete "timestamp" v ≠ ∅) vs).
Proof.
  induction vs as [|v vs IH]; [done|].
  change ((v :: vs) ≫= λ v, trace (updateVisit url v))
    with (trace (updateVisit url v) ++ (vs ≫= λ v, trace (updateVisit url v))).
  rewrite length_app, IH, filter_cons. unfold updateVisit, keys_length.
  pose proof (map_size_non_empty_iff (delete "timestamp" v)) as Hiff.
  destruct (decide (delete "timestamp" v ≠ ∅)) as [Hne|Hne].
  - rewrite bool_decide_eq_true_2 by (apply Hiff in Hne; lia). done.
  - rewrite bool_decide_eq_false_2; [done|].
    intros Hsize. apply Hne, Hiff. lia.
Qed.

(** X7: on a record with its two arrays the import makes one call for the
    page, one per tag and one per visit that has a field besides
    [timestamp]: never more than 1 + tags + visits calls. *)
Theorem importPage_call_count (page : ExportedPage.t)
    (vs : list JsObject) (ts : list JsVal) :
  ExportedPage.visits page = Some vs →
  ExportedPage.tags page = Some ts →
  length (trace (importPage page))
  = (1 + length ts
     + length (filter (λ v : JsObject, delete "timestamp" v ≠ ∅) vs))%nat
  ∧ (length (trace (importPage page)) ≤ 1 + length ts + length vs)%nat.
Proof.
  intros Hvs Hts. rewrite (importPage_defined page vs ts Hvs Hts).
  cbn [trace length]. rewrite length_app, length_fmap, length_updateVisit.
  split; [lia|].
  pose proof (length_filter (λ v : JsObject, delete "timestamp" v ≠ ∅) vs).
  lia.
Qed.

Lemma importPage_call_count_witness :
  length (trace (importPage page0)) = 4%nat.
Proof.
  rewrite (proj1 (importPage_call_count page0 visits0 tags0 eq_refl eq_refl)).
  vm_compute. reflexivity.
Defined.

(** X8: whatever the record, [addPage] is called at most once and before
    anything else; when [visits] is missing nothing is called at all, and
    when it is there [addPage] is the first call. *)
Theorem importPage_addPage_once (page : ExportedPage.t) :
  match ExportedPage.visits page with
  | None => trace (importPage page) = []
  | Some _ =>
      ∃ args rest,
        trace (importPage page) = addPage args :: rest
        ∧ ∀ c, c ∈ rest → ∀ args', c ≠ addPage args'
  end.
Proof.
  destruct (ExportedPage.visits page) as [vs|] eqn:Hvs.
  - destruct (ExportedPage.tags page) as [ts|] eqn:Hts.
    + rewrite (importPage_defined page vs ts Hvs Hts). cbn [trace].
      do 2 eexists. split; [reflexivity|].
      intros c [Hc|Hc]%elem_of_app args' ->.
      * apply list_elem_of_fmap in Hc as (t & Ht & _). done.
      * apply list_elem_of_bind in Hc as (v & Hc & _).
        apply elem_of_updateVisit in Hc as [_ Hc]. done.
    + rewrite (importPage_tags_missing page vs Hvs Hts). cbn [trace].
      do 2 eexists. split; [reflexivity|]. by intros c Hc%elem_of_nil.
  - by rewrite importPage_no_visits.
Qed.

(** X9: metadata is only written for timestamps that were handed to
    [addPage]: the timestamp of every [updateTimestampMeta] call is among
    the visits of the [addPage] call. *)
Theorem importPage_meta_for_stored_visits (page : ExportedPage.t)
    (args : AddPageArgs.t) (url timestamp : JsVal) (meta : JsObject) :
  addPage args ∈ trace (importPage page) →
  updateTimestampMeta url timestamp meta ∈ trace (importPage page) →
  timestamp ∈ AddPageArgs.visits args.
Proof.
  destruct (ExportedPage.visits page) as [vs|] eqn:Hvs;
    [|rewrite importPage_no_visits by done; by intros ?%elem_of_nil].
  destruct (ExportedPage.tags page) as [ts|] eqn:Hts;
    [|rewrite (importPage_tags_missing page vs Hvs Hts);
      intros _ [?|?%elem_of_nil]%elem_of_cons; done].
  rewrite (importPage_defined page vs ts Hvs Hts). cbn [trace].
  intros [Hargs|[Hargs|Hargs]%elem_of_app]%elem_of_cons.
  - injection Hargs as ->. cbn [AddPageArgs.visits].
    intros [?|[Hc|Hc]%elem_of_app]%elem_of_cons; [done| |].
    + apply list_elem_of_fmap in Hc as (t & Ht & _). done.
    + apply list_elem_of_bind in Hc as (v & Hc & Hv).
      apply elem_of_updateVisit in Hc as [_ Hc]. injection Hc as _ -> _.
      apply list_elem_of_fmap. by exists v.
  - apply list_elem_of_fmap in Hargs as (t & Ht & _). done.
  - apply list_elem_of_bind in Hargs as (v & Hc & _).
    apply elem_of_updateVisit in Hc as [_ Hc]. done.
Qed.

Lemma importPage_meta_for_stored_visits_witness :
  JNumber 1500000000002
    ∈ [JNumber 1500000000001; JNumber 1500000000002].
Proof.
  apply (importPage_meta_for_stored_visits page0
           {| AddPageArgs.pageDoc :=
                {| AddPageArgs.content :=
                     {| AddPageArgs.fullText := JString "some text";
                        AddPageArgs.title := JString "A page" |};
                   AddPageArgs.url := JString "https://example.com/a";
                   AddPageArgs.screenshotURI := JUndefined;
                   AddPageArgs.favIconURI := JString "data:," |};
              AddPageArgs.bookmark := JNumber 1500000000000;
              AddPageArgs.visits :=
                [JNumber 1500000000001; JNumber 1500000000002] |}
           (JString "example.com/a") (JNumber 1500000000002)
           {[ "duration" := JNumber 30 ]}).
  - vm_compute. apply elem_of_cons. by left.
  - vm_compute. do 3 (apply elem_of_cons; right). apply elem_of_cons. by left.
Defined.

End ImportPageSpec.

(** ** IndexDropdownContainer *)
Module IndexDropdownSpec.
Import Js IndexDropdown ExecSpec Examples.

Lemma findIndex_absent (t : string) (l : list string) :
  t ∉ l → findIndex (λ val, bool_decide (val = t)) l = -1.
Proof.
  induction l as [|x l IH]; [done|].
  intros [Hx Hl]%not_elem_of_cons. cbn [findIndex].
  rewrite bool_decide_eq_false_2 by congruence.
  rewrite IH by done. done.
Qed.

Lemma findIndex_head (t : string) (l : list string) :
  findIndex (λ val, bool_decide (val = t)) (t :: l) = 0.
Proof. cbn [findIndex]. by rewrite bool_decide_eq_true_2. Qed.

(** Removing position 0 the way the handler does it. *)
Lemma slice_out_head {A} (x : A) (l : list A) :
  slice (x :: l) 0 0 ++ slice_from (x :: l) (0 + 1) = l.
Proof.
  unfold slice, slice_from, clamp. cbn [length].
  rewrite !decide_False by lia.
  replace (Z.to_nat (Z.min 0 (Z.of_nat (S (length l))))) with 0%nat by lia.
  replace (Z.to_nat (Z.min (0 + 1) (Z.of_nat (S (length l))))) with 1%nat by lia.
  done.
Qed.

(** The displayed tag at an index is the display filter at that index. *)
Lemma index_getDisplayTags (st : State) (i : Z) (t : string) :
  index (displayFilters st) i = Some t →
  ∃ entry, index (getDisplayTags st) i = Some entry
           ∧ DisplayTag.value entry = t.
Proof.
  unfold index, getDisplayTags. case_decide; [|done].
  intros Ht. rewrite list_lookup_imap, Ht. by eexists.
Qed.

(** Selecting a tag the page does not have puts it in front. *)
Lemma handleTagSelection_add (props : Props) (st : State) (i : Z) (t : string) :
  index (displayFilters st) i = Some t →
  t ∉ filters st →
  outcome (handleTagSelection props i st)
  = inr {| searchVal := searchVal st;
           isLoading := isLoading st;
           displayFilters := displayFilters st;
           filters := t :: filters st;
           focused := i |}.
Proof.
  intros Hi Hnot. unfold handleTagSelection.
  destruct (index_getDisplayTags st i t Hi) as (entry & -> & <-).
  cbn [deref]. unfold ret. rewrite bind_ok. cbn [outcome]. cbv beta zeta.
  rewrite findIndex_absent by done.
  rewrite decide_True by done.
  unfold whenAllowed. by destruct (url props).
Qed.

(** Selecting the tag at the front of the page's tags removes it. *)
Lemma handleTagSelection_del_head (props : Props) (st : State) (i : Z)
    (t : string) (rest : list string) :
  index (displayFilters st) i = Some t →
  filters st = t :: rest →
  outcome (handleTagSelection props i st)
  = inr {| searchVal := searchVal st;
           isLoading := isLoading st;
           displayFilters := displayFilters st;
           filters := rest;
           focused := i |}.
Proof.
  intros Hi Hf. unfold handleTagSelection.
  destruct (index_getDisplayTags st i t Hi) as (entry & -> & <-).
  cbn [deref]. unfold ret. rewrite bind_ok. cbn [outcome]. cbv beta zeta.
  rewrite Hf, findIndex_head.
  rewrite decide_False by done.
  unfold whenAllowed. destruct (url props); cbn; by rewrite slice_out_head.
Qed.

(** C10: when the tag shown at an index is not among the filters,
    selecting that index puts the tag in front of the filters, and
    selecting the index once more gives back the filters there were. *)
Theorem double_toggle_restores_filters (props : Props) (st : State)
    (i : Z) (t : string) :
  index (displayFilters st) i = Some t →
  t ∉ filters st →
  ∃ st1 st2,
    outcome (handleTagSelection props i st) = inr st1
    ∧ filters st1 = t :: filters st
    ∧ outcome (handleTagSelection props i st1) = inr st2
    ∧ filters st2 = filters st.
Proof.
  intros Hi Hnot. do 2 eexists.
  split; [by apply handleTagSelection_add|].
  split; [done|].
  split; [by eapply handleTagSelection_del_head|done].
Qed.

Lemma double_toggle_restores_filters_witness :
  ∃ st1 st2,
    outcome (handleTagSelection props0 0 state0) = inr st1
    ∧ filters st1 = "later" :: filters state0
    ∧ outcome (handleTagSelection props0 0 st1) = inr st2
    ∧ filters st2 = filters state0.
Proof.
  apply (double_toggle_restores_filters props0 state0 0 "later").
  - reflexivity.
  - vm_compute. intros Hin.
    apply elem_of_cons in Hin as [Hin|Hin]; [discriminate Hin|].
    by apply elem_of_nil in Hin.
Defined.

(** *** Further properties of the tag dropdown *)

Lemma findIndex_first (t : string) (l1 l2 : list string) :
  t ∉ l1 →
  findIndex (λ val, bool_decide (val = t)) (l1 ++ t :: l2)
  = Z.of_nat (length l1).
Proof.
  induction l1 as [|x l1 IH]; intros Hnot.
  - apply findIndex_head.
  - apply not_elem_of_cons in Hnot as [Hx Hl1].
    cbn [app findIndex length]. rewrite bool_decide_eq_false_2 by congruence.
    rewrite IH by done. rewrite decide_False by lia. lia.
Qed.

(** Cutting one position out of a list the way the handler does it. *)
Lemma slice_out {A} (l1 l2 : list A) (x : A) :
  slice (l1 ++ x :: l2) 0 (Z.of_nat (length l1))
  ++ slice_from (l1 ++ x :: l2) (Z.of_nat (length l1) + 1)
  = l1 ++ l2.
Proof.
  unfold slice, slice_from, clamp. rewrite length_app. cbn [length].
  rewrite !decide_False by lia.
  replace (Z.to_nat (Z.min 0 _)) with 0%nat by lia.
  replace (Z.to_nat (Z.min (Z.of_nat (length l1)) _)) with (length l1) by lia.
  replace (Z.to_nat (Z.min (Z.of_nat (length l1) + 1) _))
    with (S (length l1)) by lia.
  rewrite drop_0, Nat.sub_0_r, take_app_length.
  f_equal. replace (S (length l1)) with (length l1 + 1)%nat by lia.
  rewrite <- drop_drop, drop_app_length. done.
Qed.

Lemma index_getDisplayTags_None (st : State) (i : Z) :
  index (displayFilters st) i = None → index (getDisplayTags st) i = None.
Proof.
  unfold index, getDisplayTags. case_decide; [|done].
  intros Hnone. by rewrite list_lookup_imap, Hnone.
Qed.

(** The RPC that goes with a selection, if the index may be updated. *)
Lemma trace_whenAllowed (props : Props) (rpc : string → Event) :
  whenAllowed props rpc
  = MkExec (match url props with Some u => [rpc u] | None => [] end) (inr tt).
Proof. unfold whenAllowed. by destruct (url props). Qed.

(** The whole outcome of selecting a tag the page does not have. *)
Lemma handleTagSelection_add_full (props : Props) (st : State) (i : Z)
    (t : string) :
  index (displayFilters st) i = Some t →
  t ∉ filters st →
  handleTagSelection props i st
  = MkExec
      (match url props with
       | Some u => [addTagRPC u t (tabId props)]
       | None => []
       end ++ [onFilterAdd t; updateLastActive])
      (inr {| searchVal := searchVal st;
              isLoading := isLoading st;
              displayFilters := displayFilters st;
              filters := t :: filters st;
              focused := i |}).
Proof.
  intros Hi Hnot. unfold handleTagSelection.
  destruct (index_getDisplayTags st i t Hi) as (entry & -> & <-).
  cbn [deref]. unfold ret. rewrite bind_ok. cbv beta zeta.
  rewrite findIndex_absent by done.
  rewrite decide_True by done. rewrite trace_whenAllowed.
  by destruct (url props).
Qed.

(** The whole outcome of selecting a tag the page has. *)
Lemma handleTagSelection_del_full (props : Props) (st : State) (i : Z)
    (t : string) (l1 l2 : list string) :
  index (displayFilters st) i = Some t →
  filters st = l1 ++ t :: l2 →
  t ∉ l1 →
  handleTagSelection props i st
  = MkExec
      (match url props with
       | Some u => [delTagRPC u t (tabId props)]
       | None => []
       end ++ [onFilterDel t; updateLastActive])
      (inr {| searchVal := searchVal st;
              isLoading := isLoading st;
              displayFilters := displayFilters st;
              filters := l1 ++ l2;
              focused := i |}).
Proof.
  intros Hi Hf Hnot. unfold handleTagSelection.
  destruct (index_getDisplayTags st i t Hi) as (entry & -> & <-).
  cbn [deref]. unfold ret. rewrite bind_ok. cbv beta zeta.
  rewrite Hf, findIndex_first by done.
  rewrite decide_False by lia. rewrite trace_whenAllowed.
  destruct (url props); cbn; by rewrite slice_out.
Qed.

Lemma handleTagSelection_fail (props : Props) (st : State) (i : Z) :
  index (displayFilters st) i = None →
  handleTagSelection props i st = MkExec [] (inl TypeError).
Proof.
  intros Hnone%index_getDisplayTags_None.
  unfold handleTagSelection. by rewrite Hnone.
Qed.

(** X10: selecting an index at which no tag is displayed (negative, or
    past the end of the display list) raises a TypeError before anything
    is sent or changed. *)
Theorem handleTagSelection_out_of_range (props : Props) (st : State) (i : Z) :
  index (displayFilters st) i = None →
  handleTagSelection props i st = MkExec [] (inl TypeError).
Proof. apply handleTagSelection_fail. Qed.

Lemma handleTagSelection_out_of_range_witness :
  handleTagSelection props0 3 state0 = MkExec [] (inl TypeError)
  ∧ handleTagSelection props0 (-1) state0 = MkExec [] (inl TypeError).
Proof.
  split; apply handleTagSelection_out_of_range; reflexivity.
Defined.

(** X11: a selection that goes through changes the filters and the focus
    only: the focus is the selected index, and the search value, the
    loading flag and the display list are as before. *)
Theorem handleTagSelection_frame (props : Props) (st st' : State) (i : Z) :
  outcome (handleTagSelection props i st) = inr st' →
  searchVal st' = searchVal st
  ∧ isLoading st' = isLoading st
  ∧ displayFilters st' = displayFilters st
  ∧ focused st' = i.
Proof.
  destruct (index (displayFilters st) i) as [t|] eqn:Hi.
  - destruct (decide (t ∈ filters st)) as [Hin|Hnot].
    + apply list_elem_of_split_l in Hin as (l1 & l2 & Hf & Hl1).
      rewrite (handleTagSelection_del_full props st i t l1 l2 Hi Hf Hl1).
      cbn [outcome]. by intros [= <-].
    + rewrite (handleTagSelection_add_full props st i t Hi Hnot).
      cbn [outcome]. by intros [= <-].
  - by rewrite handleTagSelection_fail.
Qed.

Lemma handleTagSelection_frame_witness :
  ∃ st', outcome (handleTagSelection props0 1 state0) = inr st'
         ∧ displayFilters st' = displayFilters state0
         ∧ focused st' = 1.
Proof.
  eexists. split; [reflexivity|].
  eapply (handleTagSelection_frame props0 state0 _ 1). reflexivity.
Defined.

(** X12: selecting a tag the page has removes its first occurrence from
    the filters and leaves the others in their order; the callback
    [onFilterDel] is told, and [delTag] is sent when there is a url. *)
Theorem handleTagSelection_removes_first (props : Props) (st : State)
    (i : Z) (t : string) (l1 l2 : list string) :
  index (displayFilters st) i = Some t →
  filters st = l1 ++ t :: l2 →
  t ∉ l1 →
  ∃ st', outcome (handleTagSelection props i st) = inr st'
         ∧ filters st' = l1 ++ l2
         ∧ trace (handleTagSelection props i st)
           = match url props with
             | Some u => [delTagRPC u t (tabId props)]
             | None => []
             end ++ [onFilterDel t; updateLastActive].
Proof.
  intros Hi Hf Hl1.
  rewrite (handleTagSelection_del_full props st i t l1 l2 Hi Hf Hl1).
  by eexists.
Qed.

Lemma handleTagSelection_removes_first_witness :
  ∃ st', outcome (handleTagSelection props0 1 state_dup) = inr st'
         ∧ filters st' = ["work"; "news"]
         ∧ trace (handleTagSelection props0 1 state_dup)
           = [delTagRPC "example.com/a" "news" (Some 7);
              onFilterDel "news"; updateLastActive].
Proof.
  apply (handleTagSelection_removes_first props0 state_dup 1 "news"
           ["work"] ["news"]); [reflexivity|reflexivity|].
  intros Hin. apply elem_of_cons in Hin as [Hin|Hin]; [discriminate Hin|].
  by apply elem_of_nil in Hin.
Defined.

(** X13: selecting twice a tag that occurs once among the filters moves
    it to the front of the filters, the others keeping their order; the
    filters are given back as they were exactly when the tag was the first
    of them. *)
Theorem double_toggle_moves_to_front (props : Props) (st : State)
    (i : Z) (t : string) (l1 l2 : list string) :
  index (displayFilters st) i = Some t →
  filters st = l1 ++ t :: l2 →
  t ∉ l1 → t ∉ l2 →
  ∃ st1 st2,
    outcome (handleTagSelection props i st) = inr st1
    ∧ outcome (handleTagSelection props i st1) = inr st2
    ∧ filters st2 = t :: l1 ++ l2
    ∧ (filters st2 = filters st ↔ l1 = []).
Proof.
  intros Hi Hf Hl1 Hl2.
  rewrite (handleTagSelection_del_full props st i t l1 l2 Hi Hf Hl1).
  eexists. eexists. split; [reflexivity|].
  rewrite (handleTagSelection_add_full props _ i t); [|done|].
  - cbn [outcome filters]. split; [done|]. split; [done|].
    rewrite Hf. split.
    + destruct l1 as [|x l1]; [done|].
      intros [= <- _]. destruct Hl1. apply elem_of_cons. by left.
    + by intros ->.
  - cbn [filters]. intros [?|?]%elem_of_app; done.
Qed.

Lemma double_toggle_moves_to_front_witness :
  ∃ st1 st2,
    outcome (handleTagSelection props0 1 state1) = inr st1
    ∧ outcome (handleTagSelection props0 1 st1) = inr st2
    ∧ filters st2 = ["news"; "work"; "later"]
    ∧ (filters st2 = filters state1 ↔ ["work"] = []).
Proof.
  assert (∀ l : list string, "news" ∉ l ↔ Forall (λ x, x ≠ "news") l) as Hall.
  { intros l. rewrite Forall_forall. split.
    - intros Hnot x Hx ->. done.
    - intros Hne Hin. by apply (Hne "news"). }
  apply (double_toggle_moves_to_front props0 state1 1 "news"
           ["work"] ["later"]); [reflexivity|reflexivity| |];
    apply Hall; repeat constructor; discriminate.
Defined.

(** **** The search value *)

















Lemma foldl_or_elem (v : string) (l : list string) (b : bool) :
  foldl (λ acc tag, acc || bool_decide (tag = v)) b l
  = b || bool_decide (v ∈ l).
Proof.
  revert b. induction l as [|x l IH]; intros b; cbn [foldl].
  - rewrite bool_decide_eq_false_2 by apply not_elem_of_nil.
    by rewrite orb_false_r.
  - rewrite IH, <- orb_assoc. f_equal.
    destruct (decide (x = v)) as [->|Hne].
    + rewrite (bool_decide_eq_true_2 (v = v)) by done.
      by rewrite (bool_decide_eq_true_2 (v ∈ v :: l))
        by (apply elem_of_cons; by left).
    + rewrite (bool_decide_eq_false_2 (x = v)) by done. cbn.
      apply bool_decide_ext. rewrite elem_of_cons.
      split; [by right|]. by intros [->|?].
Qed.

Lemma canCreateTag_spec (props : Props) (st : State) :
  canCreateTag props st = true
  ↔ url props ≠ None
    ∧ getSearchVal st ≠ ""
    ∧ getSearchVal st ∉ displayFilters st.
Proof.
  unfold canCreateTag, allowIndexUpdate.
  rewrite foldl_or_elem. cbn [orb].
  destruct (url props) as [u|].
  - rewrite bool_decide_eq_true_2 by done. cbn [negb].
    rewrite andb_true_iff, !negb_true_iff, !bool_decide_eq_false.
    assert (String.length (getSearchVal st) = 0%nat ↔ getSearchVal st = "")
      as ->.
    { destruct (getSearchVal st); cbn; split; congruence. }
    split; [by intros [? ?]|]. by intros (_ & ? & ?).
  - rewrite bool_decide_eq_false_2 by (intros H; by apply H).
    cbn. split; [done|]. by intros [? _].
Qed.

(** X15: a new tag can be created exactly when the component has a url,
    the normalised search value is not empty and it is not one of the
    displayed tags. *)
Theorem canCreateTag_iff (props : Props) (st : State) :
  canCreateTag props st = true
  ↔ url props ≠ None
    ∧ getSearchVal st ≠ ""
    ∧ getSearchVal st ∉ displayFilters st.
Proof. apply canCreateTag_spec. Qed.

(** **** Adding a tag and the Enter key *)

Lemma addTag_full (props : Props) (st : State) :
  addTag props st
  = MkExec
      (match url props with
       | Some u => [tagEvent (addTagRPC u (getSearchVal st) (tabId props))]
       | None => []
       end
       ++ [inputFocus; tagEvent (onFilterAdd (getSearchVal st));
           tagEvent updateLastActive])
      (inr {| searchVal := "";
              isLoading := isLoading st;
              displayFilters := getSearchVal st :: filters st;
              filters := getSearchVal st :: filters st;
              focused := 0 |}).
Proof.
  unfold addTag. rewrite trace_whenAllowed. by destruct (url props).
Qed.

(** X16: [addTag] always goes through.  Afterwards the display list is the
    list of filters with the new tag in front, so every displayed row is
    active, the new tag is the focused first row, and the input is empty. *)
Theorem addTag_shows_filters (props : Props) (st : State) :
  ∃ st',
    outcome (addTag props st) = inr st'
    ∧ filters st' = getSearchVal st :: filters st
    ∧ displayFilters st' = filters st'
    ∧ searchVal st' = ""
    ∧ head (getDisplayTags st')
      = Some {| DisplayTag.value := getSearchVal st;
                DisplayTag.active := true;
                DisplayTag.focused := true |}
    ∧ ∀ entry, entry ∈ getDisplayTags st' → DisplayTag.active entry = true.
Proof.
  rewrite addTag_full. eexists. split; [reflexivity|].
  cbn [filters displayFilters searchVal]. repeat split.
  - unfold getDisplayTags, pageHasTag. cbn [displayFilters filters focused imap head].
    rewrite bool_decide_eq_true_2 by (apply elem_of_cons; by left). done.
  - intros entry. unfold getDisplayTags.
    intros (i & t & -> & Ht)%elem_of_lookup_imap.
    cbn [DisplayTag.active]. unfold pageHasTag.
    apply bool_decide_eq_true_2. cbn [displayFilters filters] in *.
    by apply list_elem_of_lookup_2 in Ht.
Qed.

Lemma liftExec_fail {E E' A} (inj : E → E') :
  liftExec (A := A) inj (MkExec [] (inl TypeError)) = MkExec [] (inl TypeError).
Proof. reflexivity. Qed.

(** The three ways [handleTagSelection] can end. *)
Lemma handleTagSelection_cases (props : Props) (st : State) (i : Z) :
  (index (displayFilters st) i = None
   ∧ handleTagSelection props i st = MkExec [] (inl TypeError))
  ∨ (∃ t, index (displayFilters st) i = Some t ∧ (t ∉ filters st)
          ∧ handleTagSelection props i st
            = MkExec
                (match url props with
                 | Some u => [addTagRPC u t (tabId props)]
                 | None => []
                 end ++ [onFilterAdd t; updateLastActive])
                (inr {| searchVal := searchVal st;
                        isLoading := isLoading st;
                        displayFilters := displayFilters st;
                        filters := t :: filters st;
                        focused := i |}))
  ∨ (∃ t l1 l2, index (displayFilters st) i = Some t
                ∧ filters st = l1 ++ t :: l2 ∧ (t ∉ l1)
                ∧ handleTagSelection props i st
                  = MkExec
                      (match url props with
                       | Some u => [delTagRPC u t (tabId props)]
                       | None => []
                       end ++ [onFilterDel t; updateLastActive])
                      (inr {| searchVal := searchVal st;
                              isLoading := isLoading st;
                              displayFilters := displayFilters st;
                              filters := l1 ++ l2;
                              focused := i |})).
Proof.
  destruct (index (displayFilters st) i) as [t|] eqn:Hi.
  - destruct (decide (t ∈ filters st)) as [Hin|Hnot].
    + right. right.
      apply list_elem_of_split_l in Hin as (l1 & l2 & Hf & Hl1).
      exists t, l1, l2. repeat split; try done.
      by apply handleTagSelection_del_full.
    + right. left. exists t. repeat split; try done.
      by apply handleTagSelection_add_full.
  - left. split; [done|]. by apply handleTagSelection_fail.
Qed.

Lemma handleSearchEnterPress_create (props : Props) (st : State) :
  canCreateTag props st = true →
  focused st = Z.of_nat (length (displayFilters st)) →
  handleSearchEnterPress props st
  = MkExec (preventDefault :: trace (addTag props st))
           (outcome (addTag props st)).
Proof.
  intros Hcan Hfoc. unfold handleSearchEnterPress.
  rewrite Hcan, bool_decide_eq_true_2 by done. cbn [andb].
  unfold call. by rewrite bind_ok.
Qed.

Lemma handleSearchEnterPress_select (props : Props) (st : State) :
  canCreateTag props st
  && bool_decide (focused st = Z.of_nat (length (displayFilters st))) = false →
  handleSearchEnterPress props st
  = if decide (displayFilters st = [])
    then MkExec [preventDefault] (inr st)
    else MkExec
           (preventDefault
            :: (tagEvent <$> trace (handleTagSelection props (focused st) st)))
           (outcome (handleTagSelection props (focused st) st)).
Proof.
  intros Hno. unfold handleSearchEnterPress. rewrite Hno.
  unfold call. rewrite bind_ok.
  destruct (displayFilters st) as [|x l] eqn:Hd; by cbn.
Qed.

(** X17: whatever the state, a tag that the Enter key sends to [addTag]
    goes to the component's url, and it is either a displayed tag the page
    does not have yet, or the normalised search value, which is then
    neither empty nor displayed. *)
Theorem enter_adds_only_expected_tags (props : Props) (st : State)
    (u t : string) (id : option Z) :
  tagEvent (addTagRPC u t id) ∈ trace (handleSearchEnterPress props st) →
  url props = Some u
  ∧ id = tabId props
  ∧ ((t ∈ displayFilters st ∧ t ∉ filters st)
     ∨ (t = getSearchVal st ∧ t ≠ "" ∧ t ∉ displayFilters st)).
Proof.
  destruct (canCreateTag props st
            && bool_decide (focused st = Z.of_nat (length (displayFilters st))))
    eqn:Hbranch.
  - apply andb_true_iff in Hbranch as [Hcan Hfoc%bool_decide_eq_true].
    rewrite (handleSearchEnterPress_create props st Hcan Hfoc), addTag_full.
    cbn [trace]. apply canCreateTag_spec in Hcan as (Hurl & Hne & Hnot).
    destruct (url props) as [u'|]; [|done].
    intros Hin. repeat (apply elem_of_cons in Hin as [Hin|Hin]; try done).
    + injection Hin as -> -> ->. split; [done|]. split; [done|]. by right.
    + by apply elem_of_nil in Hin.
  - rewrite (handleSearchEnterPress_select props st Hbranch).
    destruct (decide (displayFilters st = [])) as [Hd|Hd].
    { cbn [trace]. intros [?|?%elem_of_nil]%elem_of_cons; done. }
    cbn [trace]. intros [?|Hin]%elem_of_cons; [done|].
    apply list_elem_of_fmap in Hin as (e & [= <-] & Hin).
    destruct (handleTagSelection_cases props st (focused st))
      as [[_ Heq]|[(t' & Hi & Hnot & Heq)|(t' & l1 & l2 & Hi & _ & _ & Heq)]];
      rewrite Heq in Hin; cbn [trace] in Hin.
    + by apply elem_of_nil in Hin.
    + destruct (url props) as [u'|];
        repeat (apply elem_of_cons in Hin as [Hin|Hin]; try done);
        try (by apply elem_of_nil in Hin).
      injection Hin as -> -> ->. split; [done|]. split; [done|]. left.
      split; [|done]. unfold index in Hi. case_decide; [|done].
      by apply list_elem_of_lookup_2 in Hi.
    + destruct (url props) as [u'|];
        repeat (apply elem_of_cons in Hin as [Hin|Hin]; try done);
        by apply elem_of_nil in Hin.
Qed.

Lemma enter_adds_only_expected_tags_witness :
  url props0 = Some "example.com/a"
  ∧ Some 7 = tabId props0
  ∧ (("work" ∈ displayFilters state_typing ∧ "work" ∉ filters state_typing)
     ∨ ("work" = getSearchVal state_typing ∧ "work" ≠ ""
        ∧ "work" ∉ displayFilters state_typing)).
Proof.
  apply (enter_adds_only_expected_tags props0 state_typing).
  vm_compute. apply elem_of_cons. right. apply elem_of_cons. by left.
Defined.

(** X18: with the focus on no displayed tag and nothing to create, the
    Enter key only prevents the default action when the display list is
    empty, and otherwise ends in a TypeError; the state stays as it is. *)
Theorem enter_without_target (props : Props) (st : State) :
  canCreateTag props st = false →
  index (displayFilters st) (focused st) = None →
  handleSearchEnterPress props st
  = MkExec [preventDefault]
           (if decide (displayFilters st = []) then inr st else inl TypeError).
Proof.
  intros Hcan Hnone.
  rewrite handleSearchEnterPress_select by (by rewrite Hcan).
  destruct (decide (displayFilters st = [])); [done|].
  by rewrite handleTagSelection_fail.
Qed.

Lemma enter_without_target_witness :
  handleSearchEnterPress props0 state_stale
  = MkExec [preventDefault] (inl TypeError).
Proof.
  apply (enter_without_target props0 state_stale); reflexivity.
Defined.

(** **** The arrow keys *)

Lemma handleSearchArrowPress_full (props : Props) (key : string) (st : State) :
  handleSearchArrowPress props key st
  = MkExec [preventDefault]
      (inr {| searchVal := searchVal st;
              isLoading := isLoading st;
              displayFilters := displayFilters st;
              filters := filters st;
              focused :=
                let last := Z.of_nat (length (displayFilters st))
                            - arrowOffset props st in
                if decide (key = "ArrowUp")
                then if decide (focused st < 1) then last else focused st - 1
                else if decide (focused st = last) then 0 else focused st + 1 |}).
Proof.
  unfold handleSearchArrowPress, call. rewrite bind_ok. cbn [trace outcome].
  by destruct (decide (key = "ArrowUp")).
Qed.

(** The offset looks at the search value and the display list only. *)
Lemma arrowOffset_ext (props : Props) (st' st : State) :
  searchVal st' = searchVal st →
  displayFilters st' = displayFilters st →
  arrowOffset props st' = arrowOffset props st.
Proof.
  intros Hs Hd. unfold arrowOffset, canCreateTag, getSearchVal.
  by rewrite Hs, Hd.
Qed.

Lemma pressArrow_fields (props : Props) (key : string) (st : State) :
  searchVal (pressArrow props key st) = searchVal st
  ∧ isLoading (pressArrow props key st) = isLoading st
  ∧ displayFilters (pressArrow props key st) = displayFilters st
  ∧ filters (pressArrow props key st) = filters st.
Proof. unfold pressArrow. by rewrite handleSearchArrowPress_full. Qed.

Lemma pressArrow_focused (props : Props) (key : string) (st : State) :
  focused (pressArrow props key st)
  = let last := Z.of_nat (length (displayFilters st)) - arrowOffset props st in
    if decide (key = "ArrowUp")
    then if decide (focused st < 1) then last else focused st - 1
    else if decide (focused st = last) then 0 else focused st + 1.
Proof. unfold pressArrow. by rewrite handleSearchArrowPress_full. Qed.

(** X19: every arrow key press calls [preventDefault] and changes
    nothing but the focus; and a focus on one of the rows (the displayed
    tags, and the new-tag row when it is shown) stays on one of the rows. *)
Theorem arrow_keeps_focus_in_range (props : Props) (key : string) (st : State) :
  ∃ st',
    handleSearchArrowPress props key st = MkExec [preventDefault] (inr st')
    ∧ searchVal st' = searchVal st
    ∧ isLoading st' = isLoading st
    ∧ displayFilters st' = displayFilters st
    ∧ filters st' = filters st
    ∧ (0 ≤ focused st
         ≤ Z.of_nat (length (displayFilters st)) - arrowOffset props st →
       0 ≤ focused st'
         ≤ Z.of_nat (length (displayFilters st')) - arrowOffset props st').
Proof.
  rewrite handleSearchArrowPress_full.
  eexists. split; [reflexivity|].
  cbn [searchVal isLoading displayFilters filters focused]. cbv zeta.
  do 4 (split; [done|]). intros Hrange.
  destruct (decide (key = "ArrowUp")); repeat case_decide;
    match goal with
    | |- context [arrowOffset props ?s] =>
        lazymatch s with
        | st => fail
        | _ => rewrite (arrowOffset_ext props s st) by done
        end
    end; lia.
Qed.

Lemma arrow_keeps_focus_in_range_witness :
  ∃ st',
    handleSearchArrowPress props_plain "ArrowDown" (initialState props_plain)
    = MkExec [preventDefault] (inr st')
    ∧ filters st' = []
    ∧ focused st' = 0.
Proof.
  destruct (arrow_keeps_focus_in_range props_plain "ArrowDown"
              (initialState props_plain))
    as (st' & Heq & _ & _ & _ & Hf & _).
  exists st'. split; [exact Heq|]. split; [exact Hf|].
  vm_compute in Heq. injection Heq as <-. reflexivity.
Defined.

(** X20: on a focus that is on one of the rows, ArrowUp undoes ArrowDown
    and ArrowDown undoes ArrowUp. *)
Theorem arrow_up_down_inverse (props : Props) (st : State) :
  0 ≤ focused st ≤ Z.of_nat (length (displayFilters st)) - arrowOffset props st →
  pressArrow props "ArrowUp" (pressArrow props "ArrowDown" st) = st
  ∧ pressArrow props "ArrowDown" (pressArrow props "ArrowUp" st) = st.
Proof.
  intros Hrange.
  assert (∀ k1 k2, (k1 = "ArrowUp" ∧ k2 = "ArrowDown")
                   ∨ (k1 = "ArrowDown" ∧ k2 = "ArrowUp") →
            pressArrow props k1 (pressArrow props k2 st) = st) as Hboth.
  { intros k1 k2 Hk.
    destruct (pressArrow_fields props k2 st) as (Hs & Hl & Hd & Hf).
    destruct (pressArrow_fields props k1 (pressArrow props k2 st))
      as (Hs' & Hl' & Hd' & Hf').
    pose proof (pressArrow_focused props k1 (pressArrow props k2 st)) as Hfoc.
    rewrite (arrowOffset_ext props _ st Hs Hd), Hd in Hfoc.
    rewrite (pressArrow_focused props k2 st) in Hfoc. cbv zeta in Hfoc.
    assert (focused (pressArrow props k1 (pressArrow props k2 st)) = focused st)
      as Hfoc'.
    { rewrite Hfoc. destruct Hk as [[-> ->]|[-> ->]];
        repeat (case_decide; try done; try lia). }
    destruct (pressArrow props k1 (pressArrow props k2 st)), st.
    cbn in *. congruence. }
  split; apply Hboth; [by left|by right].
Qed.

Lemma arrow_up_down_inverse_witness :
  pressArrow props0 "ArrowUp" (pressArrow props0 "ArrowDown" state_typing)
  = state_typing
  ∧ pressArrow props0 "ArrowDown" (pressArrow props0 "ArrowUp" state_typing)
    = state_typing.
Proof.
  apply (arrow_up_down_inverse props0 state_typing).
  vm_compute. split; discriminate.
Defined.

Lemma pressArrows_fields (props : Props) (key : string) (n : nat) (st : State) :
  searchVal (pressArrows props key n st) = searchVal st
  ∧ displayFilters (pressArrows props key n st) = displayFilters st.
Proof.
  induction n as [|n [IHs IHd]]; [done|].
  unfold pressArrows in *. rewrite Nat.iter_succ.
  destruct (pressArrow_fields props key (Nat.iter n (pressArrow props key) st))
    as (Hs & _ & Hd & _).
  by rewrite Hs, Hd.
Qed.

(** X21: ArrowDown walks through the rows in a cycle: from a focus on one
    of the rows, [n] presses move it [n] rows down, starting again at the
    top after the last row. *)
Theorem arrow_down_cycles (props : Props) (st : State) (n : nat) :
  0 ≤ focused st ≤ Z.of_nat (length (displayFilters st)) - arrowOffset props st →
  focused (pressArrows props "ArrowDown" n st)
  = (focused st + Z.of_nat n)
    mod (Z.of_nat (length (displayFilters st)) - arrowOffset props st + 1).
Proof.
  intros Hrange.
  set (rows := Z.of_nat (length (displayFilters st)) - arrowOffset props st + 1).
  assert (0 < rows) as Hrows by (unfold rows; lia).
  induction n as [|n IH].
  - cbn. rewrite Z.add_0_r, Z.mod_small; [done|unfold rows; lia].
  - destruct (pressArrows_fields props "ArrowDown" n st) as [Hs Hd].
    unfold pressArrows in *. rewrite Nat.iter_succ.
    rewrite pressArrow_focused. cbv zeta.
    rewrite (arrowOffset_ext props _ st Hs Hd), Hd, IH.
    rewrite decide_False by discriminate.
    pose proof (Z.mod_pos_bound (focused st + Z.of_nat n) rows Hrows) as Hb.
    replace (focused st + Z.of_nat (S n))
      with (focused st + Z.of_nat n + 1) by lia.
    rewrite <- (Zplus_mod_idemp_l (focused st + Z.of_nat n)).
    case_decide as Hlast.
    + rewrite Hlast.
      replace (Z.of_nat (length (displayFilters st)) - arrowOffset props st + 1)
        with rows by done.
      by rewrite Z_mod_same_full.
    + symmetry. apply Z.mod_small. unfold rows in *. lia.
Qed.

Lemma arrow_down_cycles_witness :
  focused (pressArrows props0 "ArrowDown" 4 state_typing) = (2 + 4) mod 3.
Proof.
  apply (arrow_down_cycles props0 state_typing 4).
  vm_compute. split; discriminate.
Defined.

(** X22: with no row at all (nothing displayed, nothing to create) the
    focus is not kept in place: from the initial focus -1 every further
    ArrowDown moves it one up, to 0, 1, 2 and so on. *)
Theorem arrow_down_without_rows (props : Props) (st : State) (n : nat) :
  displayFilters st = [] →
  canCreateTag props st = false →
  focused st = -1 →
  focused (pressArrows props "ArrowDown" (S n) st) = Z.of_nat n.
Proof.
  intros Hempty Hcan Hfoc.
  assert (arrowOffset props st = 1) as Hoff.
  { unfold arrowOffset. rewrite Hcan. by destruct (negb _). }
  induction n as [|n IH].
  - unfold pressArrows. rewrite Nat.iter_succ. cbn [Nat.iter nat_rect].
    rewrite pressArrow_focused.
    cbv zeta. rewrite Hoff, Hempty, Hfoc. done.
  - destruct (pressArrows_fields props "ArrowDown" (S n) st) as [Hs Hd].
    unfold pressArrows in *. rewrite Nat.iter_succ.
    rewrite pressArrow_focused. cbv zeta.
    rewrite (arrowOffset_ext props _ st Hs Hd), Hd, IH, Hoff, Hempty.
    rewrite decide_False by discriminate. cbn [length].
    rewrite decide_False by lia. lia.
Qed.

Lemma arrow_down_without_rows_witness :
  focused (pressArrows props_plain "ArrowDown" 3 (initialState props_plain))
  = 2.
Proof.
  apply (arrow_down_without_rows props_plain _ 2); reflexivity.
Defined.

(** **** Key presses as a whole *)

Lemma handleSearchKeyDown_cases (props : Props) (key : string) (st : State) :
  (key = "Enter"
   ∧ handleSearchKeyDown props key st = handleSearchEnterPress props st)
  ∨ ((key = "ArrowUp" ∨ key = "ArrowDown")
     ∧ handleSearchKeyDown props key st = handleSearchArrowPress props key st)
  ∨ handleSearchKeyDown props key st = MkExec [] (inr st).
Proof.
  unfold handleSearchKeyDown.
  destruct (decide (key = "Enter")); [by left|].
  destruct (decide (key = "ArrowUp" ∨ key = "ArrowDown")); [right; by left|].
  right. by right.
Qed.

(** X23: as long as every filter is among the displayed tags, no key press
    makes a tag occur twice in the filters, and every filter is still
    displayed afterwards. *)
Theorem keyDown_keeps_filters_distinct (props : Props) (key : string)
    (st st' : State) :
  NoDup (filters st) →
  (∀ t, t ∈ filters st → t ∈ displayFilters st) →
  outcome (handleSearchKeyDown props key st) = inr st' →
  NoDup (filters st') ∧ (∀ t, t ∈ filters st' → t ∈ displayFilters st').
Proof.
  intros Hnodup Hsub.
  destruct (handleSearchKeyDown_cases props key st)
    as [[_ ->]|[[_ ->]| ->]].
  - destruct (canCreateTag props st
              && bool_decide (focused st = Z.of_nat (length (displayFilters st))))
      eqn:Hbranch.
    + apply andb_true_iff in Hbranch as [Hcan Hfoc%bool_decide_eq_true].
      rewrite (handleSearchEnterPress_create props st Hcan Hfoc), addTag_full.
      cbn [outcome]. intros [= <-]. cbn [filters displayFilters].
      apply canCreateTag_spec in Hcan as (_ & _ & Hnot).
      split; [|done]. apply NoDup_cons. split; [|done].
      intros Hin. by apply Hnot, Hsub.
    + rewrite (handleSearchEnterPress_select props st Hbranch).
      destruct (decide (displayFilters st = [])) as [Hd|Hd].
      { cbn [outcome]. by intros [= <-]. }
      cbn [outcome].
      destruct (handleTagSelection_cases props st (focused st))
        as [[_ ->]|[(t & Hi & Hnot & ->)|(t & l1 & l2 & Hi & Hf & Hl1 & ->)]];
        cbn [outcome]; [done| |]; intros [= <-]; cbn [filters displayFilters].
      * split; [by apply NoDup_cons|].
        intros t' [->|Hin]%elem_of_cons; [|by apply Hsub].
        unfold index in Hi. case_decide; [|done].
        by apply list_elem_of_lookup_2 in Hi.
      * rewrite Hf in Hnodup, Hsub. split.
        -- apply NoDup_app in Hnodup as (Hn1 & Hdisj & Hn2).
           apply NoDup_cons in Hn2 as [_ Hn2].
           apply NoDup_app. split; [done|]. split; [|done].
           intros x Hx1 Hx2. apply (Hdisj x Hx1). by right.
        -- intros t' Hin. apply Hsub.
           apply elem_of_app in Hin as [Hin|Hin]; apply elem_of_app;
             [by left|right; by right].
  - rewrite handleSearchArrowPress_full. cbn [outcome]. by intros [= <-].
  - cbn [outcome]. by intros [= <-].
Qed.

Lemma keyDown_keeps_filters_distinct_witness :
  ∃ st', outcome (handleSearchKeyDown props0 "Enter" state_all) = inr st'
         ∧ NoDup (filters st')
         ∧ (∀ t, t ∈ filters st' → t ∈ displayFilters st').
Proof.
  eexists. split; [reflexivity|].
  eapply (keyDown_keeps_filters_distinct props0 "Enter" state_all);
    [apply NoDup_singleton| |reflexivity].
  intros t Hin. apply elem_of_cons. by right.
Defined.

(** X24: a component without url never sends [addTag] or [delTag] to the
    index, neither on a key press nor on a click on a row or on the
    new-tag row. *)
Theorem no_url_no_index_update (props : Props) (st : State) :
  url props = None →
  (∀ key e, e ∈ trace (handleSearchKeyDown props key st) →
            ∀ u t id, e ≠ tagEvent (addTagRPC u t id)
                      ∧ e ≠ tagEvent (delTagRPC u t id))
  ∧ (∀ i e, e ∈ trace (handleTagSelection props i st) →
            ∀ u t id, e ≠ addTagRPC u t id ∧ e ≠ delTagRPC u t id)
  ∧ (∀ e, e ∈ trace (addTag props st) →
          ∀ u t id, e ≠ tagEvent (addTagRPC u t id)
                    ∧ e ≠ tagEvent (delTagRPC u t id)).
Proof.
  intros Hurl.
  assert (∀ i e, e ∈ trace (handleTagSelection props i st) →
            ∀ u t id, e ≠ addTagRPC u t id ∧ e ≠ delTagRPC u t id) as Hsel.
  { intros i e Hin u t id.
    destruct (handleTagSelection_cases props st i)
      as [[_ Heq]|[(t' & _ & _ & Heq)|(t' & l1 & l2 & _ & _ & _ & Heq)]];
      rewrite Heq, ?Hurl in Hin; cbn [trace app] in Hin;
      repeat (apply elem_of_cons in Hin as [->|Hin]; [done|]);
      by apply elem_of_nil in Hin. }
  assert (∀ e, e ∈ trace (addTag props st) →
            ∀ u t id, e ≠ tagEvent (addTagRPC u t id)
                      ∧ e ≠ tagEvent (delTagRPC u t id)) as Hadd.
  { intros e Hin u t id. rewrite addTag_full, Hurl in Hin.
    cbn [trace app] in Hin.
    repeat (apply elem_of_cons in Hin as [->|Hin]; [done|]).
    by apply elem_of_nil in Hin. }
  split; [|by split].
  intros key e Hin u t id.
  destruct (handleSearchKeyDown_cases props key st)
    as [[_ Heq]|[[_ Heq]|Heq]]; rewrite Heq in Hin.
  - destruct (canCreateTag props st
              && bool_decide (focused st = Z.of_nat (length (displayFilters st))))
      eqn:Hbranch.
    + apply andb_true_iff in Hbranch as [Hcan Hfoc%bool_decide_eq_true].
      rewrite (handleSearchEnterPress_create props st Hcan Hfoc) in Hin.
      cbn [trace] in Hin. apply elem_of_cons in Hin as [->|Hin]; [done|].
      by apply Hadd.
    + rewrite (handleSearchEnterPress_select props st Hbranch) in Hin.
      destruct (decide (displayFilters st = [])).
      { cbn [trace] in Hin.
        apply elem_of_cons in Hin as [->|Hin%elem_of_nil]; done. }
      cbn [trace] in Hin. apply elem_of_cons in Hin as [->|Hin]; [done|].
      apply list_elem_of_fmap in Hin as (e' & -> & Hin).
      destruct (Hsel _ _ Hin u t id). split; congruence.
  - rewrite handleSearchArrowPress_full in Hin. cbn [trace] in Hin.
    apply elem_of_cons in Hin as [->|Hin%elem_of_nil]; done.
  - by apply elem_of_nil in Hin.
Qed.

Lemma no_url_no_index_update_witness :
  Forall (λ e, ∀ u t id, e ≠ tagEvent (addTagRPC u t id)
                         ∧ e ≠ tagEvent (delTagRPC u t id))
         (trace (handleSearchKeyDown props_plain "Enter" state0)).
Proof.
  apply Forall_forall.
  apply (proj1 (no_url_no_index_update props_plain state0 eq_refl) "Enter").
Defined.

(** **** Typing and suggestions *)

Lemma inputBlocked_empty (src : Source) : inputBlocked src "" = false.
Proof. reflexivity. Qed.

Lemma getSearchVal_empty (st : State) :
  searchVal st = "" → getSearchVal st = "".
Proof. unfold getSearchVal. by intros ->. Qed.

(** X25: typing never changes the filters or the focus.  An input with a
    blocked character changes nothing at all and asks for no suggestions;
    an input that is accepted becomes the search value. *)
Theorem handleSearchChange_frame (props : Props) (value : string) (st : State) :
  ∃ st',
    outcome (handleSearchChange props value st) = inr st'
    ∧ filters st' = filters st
    ∧ focused st' = focused st
    ∧ isLoading st' = isLoading st
    ∧ (if inputBlocked (source props) value
       then st' = st ∧ trace (handleSearchChange props value st) = []
       else searchVal st' = value
            ∧ trace (handleSearchChange props value st)
              = [fetchTagSuggestionsDebounced]).
Proof.
  unfold handleSearchChange.
  destruct (inputBlocked (source props) value); eexists; by cbn.
Qed.

(** X26: clearing the input is never blocked and puts the page's filters
    back on display; the suggestion fetch that follows sends no request
    and leaves that state alone. *)
Theorem clearing_input_shows_filters (props : Props) (st : State)
    (reply : option (list string)) :
  ∃ st',
    handleSearchChange props "" st
    = MkExec [fetchTagSuggestionsDebounced] (inr st')
    ∧ searchVal st' = ""
    ∧ displayFilters st' = filters st
    ∧ filters st' = filters st
    ∧ fetchTagSuggestions props reply st' = MkExec [] (inr st').
Proof.
  unfold handleSearchChange. rewrite inputBlocked_empty.
  eexists. split; [reflexivity|]. cbn [searchVal displayFilters filters].
  do 3 (split; [reflexivity|]).
  unfold fetchTagSuggestions. by rewrite getSearchVal_empty.
Qed.

(** X27: with a search value that is not blank, [fetchTagSuggestions] asks
    once for suggestions for the normalised value.  The display list
    becomes the reply, or the filters when the request fails (which is
    then logged); the focus goes to the first row; the filters and the
    search value stay. *)
Theorem fetchTagSuggestions_result (props : Props)
    (reply : option (list string)) (st : State) :
  getSearchVal st ≠ "" →
  ∃ st',
    fetchTagSuggestions props reply st
    = MkExec
        (suggestRPC (getSearchVal st) (source props)
         :: match reply with Some _ => [] | None => [consoleError] end)
        (inr st')
    ∧ displayFilters st' = default (filters st) reply
    ∧ focused st' = 0
    ∧ filters st' = filters st
    ∧ searchVal st' = searchVal st.
Proof.
  intros Hne. unfold fetchTagSuggestions.
  rewrite bool_decide_eq_false_2
    by (destruct (getSearchVal st); [done|discriminate]).
  destruct reply as [received|]; eexists; by cbn.
Qed.

Lemma fetchTagSuggestions_result_witness :
  ∃ st',
    fetchTagSuggestions props0 None state_typing
    = MkExec [suggestRPC "work" tag; consoleError] (inr st')
    ∧ displayFilters st' = ["news"]
    ∧ focused st' = 0
    ∧ filters st' = ["news"]
    ∧ searchVal st' = " Work ".
Proof.
  apply (fetchTagSuggestions_result props0 None state_typing).
  vm_compute. discriminate.
Defined.

(** X28: a tag input is blocked exactly when it would be blocked as a
    domain input or contains a dot; so whatever a tag input accepts a
    domain input accepts too. *)
Theorem inputBlocked_tag_domain (s : string) :
  inputBlocked tag s
  = inputBlocked domain s || testClass (λ c, bool_decide (c = "."%char)) s.
Proof.
  unfold inputBlocked. induction s as [|c s IH]; [done|].
  cbn [testClass]. rewrite IH.
  destruct (decide (c = "."%char)) as [->|Hc].
  - by destruct (testClass _ s), (testClass _ s).
  - rewrite (bool_decide_eq_false_2 (c = "."%char)) by done.
    rewrite !orb_false_r.
    by destruct (negb _), (testClass _ s), (testClass _ s).
Qed.

(** **** The rendered rows *)

Lemma arrowOffset_canCreate (props : Props) (st : State) :
  arrowOffset props st = if canCreateTag props st then 0 else 1.
Proof.
  unfold arrowOffset, canCreateTag.
  by destruct (negb (allowIndexUpdate props)).
Qed.

Lemma focused_rows_of_entries (entries : list DisplayTag.t) (key : nat → nat) :
  length (filter (λ r, rowFocused r = true)
                 (imap (λ i entry, IndexDropdownRow entry (key i)) entries))
  = length (filter (λ e, DisplayTag.focused e = true) entries).
Proof.
  revert key. induction entries as [|e entries IH]; intros key; [done|].
  rewrite imap_cons, !filter_cons. cbn [rowFocused].
  specialize (IH (key ∘ S)).
  case_decide; cbn [length]; by rewrite <- IH.
Qed.

Lemma focused_entries_count (st : State) (l : list string) (k : nat) (f : Z) :
  length (filter (λ e, DisplayTag.focused e = true)
            (imap (λ i value,
                     {| DisplayTag.value := value;
                        DisplayTag.active := pageHasTag st value;
                        DisplayTag.focused := bool_decide (f = Z.of_nat (k + i)) |})
                  l))
  = if decide (Z.of_nat k ≤ f < Z.of_nat k + Z.of_nat (length l))
    then 1%nat else 0%nat.
Proof.
  revert k. induction l as [|x l IH]; intros k.
  - cbn. rewrite decide_False by lia. done.
  - rewrite imap_cons, filter_cons. cbn [DisplayTag.focused length].
    rewrite (imap_ext _ (λ i value,
               {| DisplayTag.value := value;
                  DisplayTag.active := pageHasTag st value;
                  DisplayTag.focused := bool_decide (f = Z.of_nat (S k + i)) |}))
      by (intros i y _; cbn; by replace (k + S i)%nat with (S (k + i)) by lia).
    rewrite Nat.add_0_r.
    destruct (decide (f = Z.of_nat k)) as [->|Hne].
    + rewrite bool_decide_eq_true_2 by done.
      rewrite decide_True by done. cbn [length]. rewrite IH.
      rewrite decide_False by lia. rewrite decide_True by lia. done.
    + rewrite bool_decide_eq_false_2 by done.
      rewrite decide_False by done. rewrite IH.
      repeat case_decide; lia.
Qed.

(** X29: [renderTags] draws one row per displayed tag and, when a tag can
    be created, the new-tag row after them.  Exactly one row is drawn as
    focused when the focus is in the range the arrow keys keep it in, and
    none otherwise. *)
Theorem renderTags_rows (props : Props) (st : State) :
  length (renderTags props st)
  = (length (displayFilters st)
     + if canCreateTag props st then 1 else 0)%nat
  ∧ length (filter (λ r, rowFocused r = true) (renderTags props st))
    = if decide (0 ≤ focused st
                 ≤ Z.of_nat (length (displayFilters st)) - arrowOffset props st)
      then 1%nat else 0%nat.
Proof.
  rewrite arrowOffset_canCreate. unfold renderTags.
  pose proof (focused_rows_of_entries (getDisplayTags st) id) as Hrows.
  pose proof (focused_entries_count st (displayFilters st) 0 (focused st))
    as Hentries.
  change (imap _ (displayFilters st)) with (getDisplayTags st) in Hentries.
  cbn [id] in Hrows. rewrite Hentries in Hrows. clear Hentries.
  destruct (canCreateTag props st).
  - split.
    + rewrite length_app, length_imap. unfold getDisplayTags.
      by rewrite length_imap.
    + rewrite filter_app, length_app, Hrows, filter_cons, filter_nil.
      cbn [rowFocused].
      destruct (decide (focused st = Z.of_nat (length (displayFilters st))))
        as [Hlast|Hlast].
      * rewrite (bool_decide_eq_true_2 _ Hlast).
        repeat case_decide; cbn [length]; try done; lia.
      * rewrite (bool_decide_eq_false_2 _ Hlast).
        repeat case_decide; cbn [length]; try done; lia.
  - split.
    + rewrite length_imap. unfold getDisplayTags. rewrite length_imap. lia.
    + rewrite Hrows. repeat case_decide; lia.
Qed.

End IndexDropdownSpec.
